(** * Cricbuzz live info: the CRUD layer and the analytics query catalog

    A shallow embedding of [utils/db_connection.py] (schema discovery and the
    generic read, insert, delete and update operations) and of the query
    catalog of [pages/sql_queries.py], with the properties the specification
    states about them. *)

From Stdlib Require Import Floats Ascii String.
From stdpp Require Import gmap strings list pretty.
From stdpp Require Import sorting.

Set Default Proof Using "Type".

(** ** Python text

    A Python [str] is a sequence of Unicode code points; a code point is a
    natural number.  Literals of the source are written [str "..."] (they
    are ASCII, so bytes and code points agree). *)

Abbreviation pystr := (list N).

Definition str (s : string) : pystr :=
  (λ a, N_of_ascii a) <$> list_ascii_of_string s.

(** [str.isspace] for one character: the code points Python treats as
    white space. *)
Definition py_isspace (c : N) : bool :=
  ((9 <=? c) && (c <=? 13) || (28 <=? c) && (c <=? 32)
   || (c =? 133) || (c =? 160) || (c =? 5760)
   || (8192 <=? c) && (c <=? 8202)
   || (c =? 8232) || (c =? 8233) || (c =? 8239) || (c =? 8287)
   || (c =? 12288))%N.

Fixpoint py_lstrip (s : pystr) : pystr :=
  match s with
  | c :: r => if py_isspace c then py_lstrip r else s
  | [] => []
  end.

Definition py_rstrip (s : pystr) : pystr := reverse (py_lstrip (reverse s)).

(** [s.strip()] *)
Definition py_strip (s : pystr) : pystr := py_rstrip (py_lstrip s).

(** [str.lower] for one character.  ASCII and Latin-1 capitals move by 32;
    the two capitals outside Latin-1 whose lower case holds an ASCII letter
    (U+0130 and the Kelvin sign U+212A) are listed; every other code point
    is kept, which leaves comparisons against ASCII text as Python has
    them. *)
Definition py_lower_char (c : N) : pystr :=
  (if (65 <=? c) && (c <=? 90) then [c + 32]
   else if (192 <=? c) && (c <=? 222) && negb (c =? 215) then [c + 32]
   else if c =? 304 then [105; 775]
   else if c =? 8490 then [107]
   else [c])%N.

(** [s.lower()] *)
Definition py_lower (s : pystr) : pystr := s ≫= py_lower_char.

(** [s.startswith(p)] *)
Fixpoint py_startswith (s p : pystr) : bool :=
  match p, s with
  | [], _ => true
  | a :: p', b :: s' => (a =? b)%N && py_startswith s' p'
  | _ :: _, [] => false
  end.

(** [sep.join(parts)] *)
Fixpoint py_join (sep : pystr) (parts : list pystr) : pystr :=
  match parts with
  | [] => []
  | [p] => p
  | p :: rest => p ++ sep ++ py_join sep rest
  end.

(** [str(z)] for an integer, as an f-string renders it. *)
Definition py_str_int (z : Z) : pystr := str (pretty z).

(** [int(x)] on a value that is an [int] already. *)
Definition py_int (z : Z) : Z := z.

(** ** Values, exceptions and the conversation with the engine *)

(** The values a cell or a bound parameter holds. *)
Inductive PyVal :=
  | VNone
  | VInt (z : Z)
  | VStr (s : pystr).

Inductive PyExn :=
  | ValueError (msg : pystr)      (* the specification's ValidationError *)
  | Error (msg : pystr)           (* mysql.connector.Error *)
  | DatabaseError (msg : pystr).  (* raised by pandas.read_sql *)

Inductive Outcome (A : Type) :=
  | Return (a : A)
  | Raise (e : PyExn).
Arguments Return {A} a.
Arguments Raise {A} e.

(** What reaches the engine, in order. *)
Inductive Event :=
  | EConnect (database : option pystr)
  | EExecute (sql : pystr) (params : list PyVal)
  | EReadSql (sql : pystr)
  | EClose.

(** A computation yields an outcome and the events it caused. *)
Definition M (A : Type) : Type := Outcome A * list Event.

Definition ret {A} (a : A) : M A := (Return a, []).
Definition raise {A} (e : PyExn) : M A := (Raise e, []).
Definition emit (e : Event) : M unit := (Return tt, [e]).

Definition bind {A B} (m : M A) (f : A → M B) : M B :=
  match m with
  | (Return a, l) => let '(r, l') := f a in (r, l ++ l')
  | (Raise e, l) => (Raise e, l)
  end.

Global Instance M_ret : MRet M := @ret.
Global Instance M_bind : MBind M := λ A B f m, bind m f.

(** An answer of the engine: rows, or a refusal with its message. *)
Inductive Reply (A : Type) :=
  | Answer (a : A)
  | Refuse (msg : pystr).
Arguments Answer {A} a.
Arguments Refuse {A} msg.

(** One row of INFORMATION_SCHEMA.COLUMNS as the column query selects it. *)
Record ColumnRow := {
  COLUMN_NAME : pystr;
  DATA_TYPE : pystr;
  IS_NULLABLE : pystr;
  COLUMN_KEY : pystr;
  COLUMN_DEFAULT : option pystr;
  EXTRA : pystr;
}.

Abbreviation DataFrame := (list (list PyVal)).

(** The relational engine behind fixed credentials [host], [user],
    [passwd]: what it answers to each request the layer makes. *)
Record Engine := {
  connect : option pystr → Reply unit;
  show_databases : Reply (list pystr);
  base_tables : pystr → Reply (list pystr);
  table_columns : pystr → pystr → Reply (list ColumnRow);
  view_names : pystr → Reply (list pystr);
  read_sql : pystr → pystr → Reply DataFrame;
  execute : pystr → pystr → list PyVal → Reply Z;
}.

Section Crud.
Context (eng : Engine).

(** [create_connection(host, user, passwd, database)] *)
Definition create_connection (database : option pystr) : M unit :=
  emit (EConnect database);;
  match connect eng database with
  | Answer _ => ret tt
  | Refuse msg => raise (Error msg)
  end.

(** [pd.read_sql(sql, conn)] on a connection to [database] *)
Definition pd_read_sql (database sql : pystr) : M DataFrame :=
  emit (EReadSql sql);;
  match read_sql eng database sql with
  | Answer df => ret df
  | Refuse msg => raise (DatabaseError msg)
  end.

(** [cur.execute(sql, params)] with what the cursor then holds: the engine's
    answer, or [Error] raised. *)
Definition cursor_execute {A} (sql : pystr) (params : list PyVal) (r : Reply A) : M A :=
  emit (EExecute sql params);;
  match r with
  | Answer a => ret a
  | Refuse msg => raise (Error msg)
  end.

(** [cur.execute(sql, params)] followed by [cur.rowcount] *)
Definition cur_execute (database sql : pystr) (params : list PyVal) : M Z :=
  cursor_execute sql params (execute eng database sql params).

Definition conn_close : M unit := emit EClose.

Definition fetch_sql (table : pystr) (limit : Z) : pystr :=
  str "SELECT * FROM `" ++ table ++ str "` LIMIT " ++ py_str_int (py_int limit) ++ str ";".

Definition fetch_table (database table : pystr) (limit : Z) : M (DataFrame * pystr) :=
  create_connection (Some database);;
  let sql := fetch_sql table limit in
  df ← pd_read_sql database sql;
  conn_close;;
  ret (df, sql).

Definition run_select (database select_sql : pystr) : M DataFrame :=
  if negb (py_startswith (py_lower (py_strip select_sql)) (str "select"))
  then raise (ValueError (str "Only SELECT queries are allowed here."))
  else
    create_connection (Some database);;
    df ← pd_read_sql database select_sql;
    conn_close;;
    ret df.

(** [cols = [f"`{c}`" for c in data.keys()]] *)
Definition insert_cols (keys : list pystr) : list pystr :=
  (λ c, str "`" ++ c ++ str "`") <$> keys.

Definition insert_sql (table : pystr) (keys : list pystr) : pystr :=
  let cols := insert_cols keys in
  let placeholders := py_join (str ", ") (replicate (length cols) (str "%s")) in
  str "INSERT INTO `" ++ table ++ str "` (" ++ py_join (str ", ") cols
    ++ str ") VALUES (" ++ placeholders ++ str ");".

(** [data] is the dict in insertion order: its keys are [data.*1] and its
    values [data.*2]. *)
Definition insert_row (database table : pystr) (data : list (pystr * PyVal)) : M (Z * pystr) :=
  let sql := insert_sql table (data.*1) in
  let values := data.*2 in
  create_connection (Some database);;
  affected ← cur_execute database sql values;
  conn_close;;
  ret (affected, sql).

Definition delete_sql (table where_ : pystr) : pystr :=
  str "DELETE FROM `" ++ table ++ str "` WHERE " ++ where_ ++ str ";".

Definition delete_rows (database table where_clause : pystr) : M (Z * pystr) :=
  let where_ := py_strip where_clause in
  match where_ with
  | [] => raise (ValueError (str "Refusing to delete without a WHERE clause."))
  | _ =>
    let sql := delete_sql table where_ in
    create_connection (Some database);;
    affected ← cur_execute database sql [];
    conn_close;;
    ret (affected, sql)
  end.

Definition update_sql (table set_part where_part : pystr) : pystr :=
  str "UPDATE `" ++ table ++ str "` SET " ++ set_part ++ str " WHERE " ++ where_part ++ str ";".

Definition execute_update (database table set_clause where_clause : pystr) : M (Z * pystr) :=
  let set_part := py_strip set_clause in
  let where_part := py_strip where_clause in
  match set_part with
  | [] => raise (ValueError (str "SET clause cannot be empty."))
  | _ =>
    match where_part with
    | [] => raise (ValueError (str "Refusing to update without a WHERE clause."))
    | _ =>
      let sql := update_sql table set_part where_part in
      create_connection (Some database);;
      affected ← cur_execute database sql [];
      conn_close;;
      ret (affected, sql)
    end
  end.


(** *** Schema discovery *)

Definition excluded_dbs : gset pystr :=
  {[ str "information_schema"; str "performance_schema"; str "mysql"; str "sys" ]}.

(** The dict built per column: keys name, type, nullable, key, default,
    extra. *)
Record ColumnDescriptor := {
  col_name : pystr;
  col_type : pystr;
  col_nullable : pystr;
  col_key : pystr;
  col_default : option pystr;
  col_extra : pystr;
}.

Definition column_descriptor (c : ColumnRow) : ColumnDescriptor :=
  {| col_name := COLUMN_NAME c;
     col_type := DATA_TYPE c;
     col_nullable := IS_NULLABLE c;
     col_key := COLUMN_KEY c;
     col_default := COLUMN_DEFAULT c;
     col_extra := EXTRA c |}.

(** [db_structure]: the dict with keys tables, views, functions and
    procedures. *)
Record DbStructure := {
  tables : gmap pystr (list ColumnDescriptor);
  views : gmap pystr ();
  functions : gmap pystr ();
  procedures : gmap pystr ();
}.

Definition col_q : pystr :=
  str "
                    SELECT COLUMN_NAME, DATA_TYPE, IS_NULLABLE, COLUMN_KEY, COLUMN_DEFAULT, EXTRA
                    FROM INFORMATION_SCHEMA.COLUMNS
                    WHERE TABLE_SCHEMA = %s AND TABLE_NAME = %s
                    ORDER BY ORDINAL_POSITION
                ".

(** The loop over the base tables of one database. *)
Fixpoint collect_tables (db_name : pystr) (tbls : list pystr)
    (acc : gmap pystr (list ColumnDescriptor)) : M (gmap pystr (list ColumnDescriptor)) :=
  match tbls with
  | [] => ret acc
  | tbl :: rest =>
    cols ← cursor_execute col_q [VStr db_name; VStr tbl] (table_columns eng db_name tbl);
    collect_tables db_name rest (<[tbl := column_descriptor <$> cols]> acc)
  end.

(** The body of the [try] for one database: [None] is the [continue] taken
    when there is no base table, [Some] the structure stored under
    [db_name]. *)
Definition discover_db (db_name : pystr) : M (option DbStructure) :=
  create_connection (Some db_name);;
  tbls ← cursor_execute (str "SHOW FULL TABLES WHERE Table_type = 'BASE TABLE'") []
           (base_tables eng db_name);
  match tbls with
  | [] => ret None
  | _ =>
    tbl_map ← collect_tables db_name tbls ∅;
    vs ← cursor_execute (str "SHOW FULL TABLES WHERE Table_type = 'VIEW'") []
           (view_names eng db_name);
    let db_structure :=
      {| tables := tbl_map;
         views := foldl (λ m v, <[v := ()]> m) ∅ vs;
         functions := ∅;
         procedures := ∅ |} in
    conn_close;;
    ret (Some db_structure)
  end.

(** [try: m except Error: handler] *)
Definition try_except_Error {A} (m : M A) (handler : M A) : M A :=
  match m with
  | (Raise (Error _), l) => let '(r, l') := handler in (r, l ++ l')
  | _ => m
  end.

(** The loop over [all_databases]. *)
Fixpoint discover_loop (dbs : list pystr) (full_schema_info : gmap pystr DbStructure)
    : M (gmap pystr DbStructure) :=
  match dbs with
  | [] => ret full_schema_info
  | db_name :: rest =>
    if decide (db_name ∈ excluded_dbs) then discover_loop rest full_schema_info
    else
      r ← try_except_Error (discover_db db_name) (ret None);
      match r with
      | Some db_structure => discover_loop rest (<[db_name := db_structure]> full_schema_info)
      | None => discover_loop rest full_schema_info
      end
  end.

Definition get_mysql_schema : M (gmap pystr DbStructure) :=
  create_connection None;;
  all_databases ← cursor_execute (str "SHOW DATABASES") [] (show_databases eng);
  full_schema_info ← discover_loop all_databases ∅;
  conn_close;;
  ret full_schema_info.

End Crud.

(** The SQL texts among the events, in order. *)
Definition statements (events : list Event) : list pystr :=
  events ≫= λ e,
    match e with
    | EExecute sql _ => [sql]
    | EReadSql sql => [sql]
    | _ => []
    end.

(** *** An engine for the examples

    Credentials that see two system databases and four others: [cricbuzz]
    with the base table [players] and a view; [reports] with a view and no
    base table; [locked], which refuses the connection; and [staging],
    whose table [tmp_import] is gone from the column catalogue by the time
    its columns are asked for.  The table [players] holds two rows.  A
    read of it with LIMIT n answers its first n rows, and a negative n is
    a syntax error; an INSERT adds one row; a DELETE or an UPDATE whose
    condition names one of the two ids touches one row, any other none. *)
Definition players_columns : list ColumnRow :=
  [ {| COLUMN_NAME := str "id"; DATA_TYPE := str "int"; IS_NULLABLE := str "NO";
       COLUMN_KEY := str "PRI"; COLUMN_DEFAULT := None; EXTRA := str "auto_increment" |};
    {| COLUMN_NAME := str "name"; DATA_TYPE := str "varchar"; IS_NULLABLE := str "YES";
       COLUMN_KEY := []; COLUMN_DEFAULT := None; EXTRA := [] |};
    {| COLUMN_NAME := str "team"; DATA_TYPE := str "varchar"; IS_NULLABLE := str "YES";
       COLUMN_KEY := []; COLUMN_DEFAULT := None; EXTRA := [] |} ].

Definition players_rows : DataFrame :=
  [ [VInt 1; VStr (str "Virat Kohli"); VStr (str "India")];
    [VInt 2; VStr (str "Joe Root"); VStr (str "England")] ].

(** [s.endswith(p)] *)
Definition py_endswith (s p : pystr) : bool := py_startswith (reverse s) (reverse p).

Definition demo_engine : Engine :=
  {| connect := λ database,
       if bool_decide (database = Some (str "locked"))
       then Refuse (str "Access denied") else Answer ();
     show_databases :=
       Answer (str <$> ["information_schema"; "cricbuzz"; "mysql"; "reports";
                        "locked"; "staging"]%string);
     base_tables := λ db,
       if bool_decide (db = str "cricbuzz") then Answer [str "players"]
       else if bool_decide (db = str "staging") then Answer [str "tmp_import"]
       else Answer [];
     table_columns := λ db tbl,
       if bool_decide (db = str "cricbuzz" ∧ tbl = str "players")
       then Answer players_columns else Answer [];
     view_names := λ db,
       if bool_decide (db = str "cricbuzz") then Answer [str "top_players"]
       else if bool_decide (db = str "reports") then Answer [str "monthly"]
       else Answer [];
     read_sql := λ db sql,
       if py_startswith sql (str "SELECT * FROM `players` LIMIT -")
       then Refuse (str "You have an error in your SQL syntax")
       else
         match find (λ n, bool_decide (sql = fetch_sql (str "players") (Z.of_nat n)))
                    (seq 0 (length players_rows)) with
         | Some n => Answer (take n players_rows)
         | None => Answer players_rows
         end;
     execute := λ db sql params,
       if py_startswith sql (str "INSERT INTO `") then Answer 1%Z
       else if py_endswith sql (str " WHERE id = 1;") || py_endswith sql (str " WHERE id = 2;")
       then Answer 1%Z
       else Answer 0%Z |}.

(** ** The analytics query catalog ([pages/sql_queries.py]) *)

Definition DB_PATH : pystr := str "cricket_info.db".

(** The double quote, for the SQL texts that quote identifiers with it. *)
Definition dq : pystr := [34%N].

(** [run_query(query)]: the text goes to [pd.read_sql] as it is, with no
    parameter list. [sqlite_read] is what the SQLite file answers. *)
Definition run_query (sqlite_read : pystr → Reply DataFrame) (query : pystr) : M DataFrame :=
  emit (EConnect (Some DB_PATH));;
  df ← (emit (EReadSql query);;
        match sqlite_read query with
        | Answer df => ret df
        | Refuse msg => raise (DatabaseError msg)
        end);
  conn_close;;
  ret df.

Definition Q1_sql : pystr :=
  str "
                SELECT name AS full_name, playing_role, batting_style, bowling_style
                FROM players
                WHERE country = 'India';
            ".

Definition Q2_sql : pystr :=
  str "
                SELECT 
                    Description,
                    " ++ dq ++ str "Team 1" ++ dq ++ str " AS Team1,
                    " ++ dq ++ str "Team 2" ++ dq ++ str " AS Team2,
                    Venue_location AS Venue,
                    Venue_city AS City,
                    date(" ++ dq ++ str "Start Date" ++ dq ++ str ") AS Match_Date
                FROM cricket_matches_processed
                WHERE date(" ++ dq ++ str "Start Date" ++ dq ++ str ") >= date('now', '-30 day')
                ORDER BY date(" ++ dq ++ str "Start Date" ++ dq ++ str ") DESC;
            ".

Definition Q3_sql : pystr :=
  str "
                SELECT " ++ dq ++ str "Player Name" ++ dq ++ str ",
                    " ++ dq ++ str "Total Runs" ++ dq ++ str ",
                    " ++ dq ++ str "Batting Average" ++ dq ++ str ",
                    " ++ dq ++ str "Centuries" ++ dq ++ str "
                FROM odi_scorers
                ORDER BY " ++ dq ++ str "Total Runs" ++ dq ++ str " DESC
                LIMIT 10;
            ".

Definition Q4_sql : pystr :=
  str "
                SELECT venue_name,
                    city,
                    country,
                    capacity
                FROM venues
                WHERE capacity > 50000
                ORDER BY capacity DESC;
            ".

Definition Q5_sql : pystr :=
  str "
                SELECT 
                    TRIM(SUBSTR(Status, 1, INSTR(Status, ' won') - 1)) AS Team_Name,
                    COUNT(*) AS Total_Wins
                FROM cricket_matches
                WHERE Status LIKE '%won%'
                GROUP BY Team_Name
                ORDER BY Total_Wins DESC;
            ".

Definition Q6_sql : pystr :=
  str "
                /* Expected table: players(playing_role) */
                SELECT playing_role AS role, COUNT(*) AS player_count
                FROM players
                GROUP BY playing_role
                ORDER BY player_count DESC;
            ".

Definition Q7_sql : pystr :=
  str "
                /* Expected tables: batting_innings(innings_id, player_id, format, runs), formats in ('Test','ODI','T20I') */
                SELECT format,
                       MAX(runs) AS highest_score
                FROM batting_innings
                WHERE format IN ('Test','ODI','T20I')
                GROUP BY format;
            ".

Definition Q8_sql : pystr :=
  str "
                /* Expected table: series(series_id, series_name, host_country, match_type, start_date, total_matches) */
                SELECT series_name, host_country, match_type, start_date, total_matches
                FROM series
                WHERE strftime('%Y', start_date) = '2024'
                ORDER BY DATE(start_date);
            ".

Definition Q9_sql : pystr :=
  str "
                /* Expected tables:
                   batting_totals(player_id, format, runs_total)
                   bowling_totals(player_id, format, wickets_total)
                   players(player_id, name)
                */
                SELECT p.name AS player_name, bt.format,
                       bt.runs_total AS total_runs,
                       bw.wickets_total AS total_wickets
                FROM batting_totals bt
                JOIN bowling_totals bw ON bw.player_id = bt.player_id AND bw.format = bt.format
                JOIN players p ON p.player_id = bt.player_id
                WHERE bt.runs_total > 1000 AND bw.wickets_total > 50
                ORDER BY bt.format, bt.runs_total DESC, bw.wickets_total DESC;
            ".

Definition Q10_sql : pystr :=
  str "
                /* Expected table: matches(match_id, match_title, team1, team2, winner_team, victory_margin, victory_type, venue_name, state)
                   state='Complete' or similar
                */
                SELECT match_title,
                       team1, team2,
                       winner_team,
                       victory_margin,
                       victory_type,
                       venue_name,
                       match_date
                FROM matches
                WHERE state = 'Complete'
                ORDER BY DATE(match_date) DESC, match_id DESC
                LIMIT 20;
            ".

Definition Q11_sql : pystr :=
  str "
                /* Expected tables:
                   batting_totals(player_id, format, runs_total, innings, outs, average)
                   players(player_id, name)
                */
                WITH per_format AS (
                  SELECT player_id,
                         SUM(CASE WHEN format='Test' THEN runs_total ELSE 0 END) AS test_runs,
                         SUM(CASE WHEN format='ODI'  THEN runs_total ELSE 0 END) AS odi_runs,
                         SUM(CASE WHEN format='T20I' THEN runs_total ELSE 0 END) AS t20i_runs,
                         COUNT(DISTINCT format) AS fmt_count
                  FROM batting_totals
                  GROUP BY player_id
                ),
                overall AS (
                  SELECT player_id,
                         CAST(SUM(runs_total) AS FLOAT) / NULLIF(SUM(outs),0) AS overall_batting_avg
                  FROM batting_totals
                  GROUP BY player_id
                )
                SELECT p.name,
                       pf.test_runs, pf.odi_runs, pf.t20i_runs,
                       ROUND(o.overall_batting_avg, 2) AS overall_batting_avg
                FROM per_format pf
                JOIN players p ON p.player_id = pf.player_id
                LEFT JOIN overall o ON o.player_id = pf.player_id
                WHERE pf.fmt_count >= 2
                ORDER BY overall_batting_avg DESC NULLS LAST;
            ".

Definition Q12_sql : pystr :=
  str "
                /* Expected tables:
                   matches(match_id, match_date, team1, team2, winner_team, venue_country)
                   teams(team_name, country)
                */
                WITH teams_norm AS (
                  SELECT team_name, country FROM teams
                ),
                labeled AS (
                  SELECT m.*,
                         CASE
                           WHEN m.venue_country = t1.country AND (m.team1 = t1.team_name) THEN m.team1
                           WHEN m.venue_country = t2.country AND (m.team2 = t2.team_name) THEN m.team2
                           ELSE NULL
                         END AS home_team
                  FROM matches m
                  LEFT JOIN teams_norm t1 ON t1.team_name = m.team1
                  LEFT JOIN teams_norm t2 ON t2.team_name = m.team2
                )
                SELECT team,
                       SUM(CASE WHEN team = home_team  AND winner_team = team THEN 1 ELSE 0 END) AS home_wins,
                       SUM(CASE WHEN team != home_team AND winner_team = team THEN 1 ELSE 0 END) AS away_wins
                FROM (
                  SELECT team1 AS team, * FROM labeled
                  UNION ALL
                  SELECT team2 AS team, * FROM labeled
                )
                GROUP BY team
                ORDER BY (home_wins + away_wins) DESC;
            ".

Definition Q13_sql : pystr :=
  str "
                /* Expected tables:
                   batting_innings(innings_id, match_id, player_id, batting_position, runs, partnership_id)
                   partnerships(partnership_id, innings_id, runs, wicket_number)
                   players(player_id, name)
                */
                SELECT p1.name AS batter_1, p2.name AS batter_2,
                       bp.runs AS partnership_runs,
                       bi1.innings_id
                FROM partnerships bp
                JOIN batting_innings bi1 ON bi1.partnership_id = bp.partnership_id
                JOIN batting_innings bi2 ON bi2.partnership_id = bp.partnership_id AND ABS(bi1.batting_position - bi2.batting_position) = 1
                JOIN players p1 ON p1.player_id = bi1.player_id
                JOIN players p2 ON p2.player_id = bi2.player_id AND p2.player_id > p1.player_id
                WHERE bp.runs >= 100
                GROUP BY bp.partnership_id
                ORDER BY bp.runs DESC;
            ".

Definition Q14_sql : pystr :=
  str "
                /* Expected tables:
                   bowling_innings(innings_id, match_id, player_id, overs, runs_conceded, wickets, venue_id)
                   matches(match_id, venue_id)
                   venues(venue_id, venue_name)
                */
                WITH valid_spells AS (
                  SELECT bi.*, m.venue_id
                  FROM bowling_innings bi
                  JOIN matches m ON m.match_id = bi.match_id
                  WHERE bi.overs >= 4
                ),
                agg AS (
                  SELECT player_id, venue_id,
                         COUNT(DISTINCT match_id) AS matches_played,
                         SUM(runs_conceded) * 1.0 / NULLIF(SUM(overs),0) AS economy_rate,
                         SUM(wickets) AS total_wickets
                  FROM valid_spells
                  GROUP BY player_id, venue_id
                  HAVING COUNT(DISTINCT match_id) >= 3
                )
                SELECT p.name AS bowler, v.venue_name, a.matches_played,
                       ROUND(a.economy_rate,2) AS avg_economy,
                       a.total_wickets
                FROM agg a
                JOIN players p ON p.player_id = a.player_id
                JOIN venues v ON v.venue_id = a.venue_id
                ORDER BY v.venue_name, avg_economy ASC, total_wickets DESC;
            ".

Definition Q15_sql : pystr :=
  str "
                /* Expected tables:
                   matches(match_id, winner_team, victory_type, victory_margin, team1, team2)
                   batting_innings(match_id, player_id, runs, team)
                */
                WITH close_matches AS (
                  SELECT match_id, winner_team
                  FROM matches
                  WHERE (victory_type='runs' AND victory_margin < 50)
                     OR (victory_type='wickets' AND victory_margin < 5)
                ),
                per_player AS (
                  SELECT bi.player_id, bi.match_id, bi.runs, bi.team
                  FROM batting_innings bi
                  JOIN close_matches cm ON cm.match_id = bi.match_id
                )
                SELECT p.name AS player,
                       ROUND(AVG(per.runs),2) AS avg_runs_close,
                       COUNT(*) AS close_matches_played,
                       SUM(CASE WHEN cm.winner_team = per.team THEN 1 ELSE 0 END) AS team_wins_when_batted
                FROM per_player per
                JOIN close_matches cm ON cm.match_id = per.match_id
                JOIN players p ON p.player_id = per.player_id
                GROUP BY p.name
                HAVING close_matches_played >= 1
                ORDER BY avg_runs_close DESC;
            ".

Definition Q16_sql : pystr :=
  str "
                /* Expected tables:
                   batting_innings(match_id, player_id, runs, balls_faced, match_date)
                */
                WITH bi AS (
                  SELECT player_id,
                         strftime('%Y', match_date) AS yr,
                         match_id,
                         runs,
                         balls_faced
                  FROM batting_innings
                  WHERE DATE(match_date) >= DATE('2020-01-01')
                ),
                per_year AS (
                  SELECT player_id, yr,
                         COUNT(DISTINCT match_id) AS matches_played,
                         AVG(runs*1.0) AS avg_runs,
                         AVG(CASE WHEN balls_faced>0 THEN (runs*100.0/balls_faced) ELSE NULL END) AS avg_sr
                  FROM bi
                  GROUP BY player_id, yr
                  HAVING COUNT(DISTINCT match_id) >= 5
                )
                SELECT p.name, yr, ROUND(avg_runs,2) AS avg_runs, ROUND(avg_sr,2) AS avg_strike_rate, matches_played
                FROM per_year
                JOIN players p ON p.player_id = per_year.player_id
                ORDER BY p.name, yr;
            ".

Definition Q17_sql : pystr :=
  str "
                /* Expected tables:
                   matches(match_id, toss_winner, toss_decision, winner_team)
                */
                WITH base AS (
                  SELECT toss_decision,
                         COUNT(*) AS total,
                         SUM(CASE WHEN toss_winner = winner_team THEN 1 ELSE 0 END) AS wins_when_toss_winner_wins
                  FROM matches
                  WHERE toss_winner IS NOT NULL AND toss_decision IN ('bat','bowl')
                  GROUP BY toss_decision
                )
                SELECT toss_decision,
                       total,
                       ROUND(wins_when_toss_winner_wins * 100.0 / total, 2) AS win_pct_for_toss_winner
                FROM base
                ORDER BY toss_decision;
            ".

Definition Q18_sql : pystr :=
  str "
                /* Expected tables:
                   bowling_innings(match_id, player_id, format, overs, runs_conceded, wickets)
                */
                WITH lo AS (
                  SELECT player_id,
                         COUNT(DISTINCT match_id) AS matches_bowled,
                         SUM(overs) AS overs_total,
                         SUM(runs_conceded) AS runs_total,
                         SUM(wickets) AS wickets_total
                  FROM bowling_innings
                  WHERE format IN ('ODI','T20I')
                  GROUP BY player_id
                )
                SELECT p.name AS bowler,
                       ROUND(runs_total * 1.0 / NULLIF(overs_total,0), 2) AS economy_rate,
                       wickets_total,
                       matches_bowled
                FROM lo
                JOIN players p ON p.player_id = lo.player_id
                WHERE matches_bowled >= 10
                  AND (overs_total * 1.0 / matches_bowled) >= 2.0
                ORDER BY economy_rate ASC, wickets_total DESC;
            ".

Definition Q19_sql : pystr :=
  str "
                /* SQLite lacks STDDEV by default. We'll approximate via variance formula.
                   Expected tables: batting_innings(player_id, runs, balls_faced, match_date)
                */
                WITH filt AS (
                  SELECT player_id, runs*1.0 AS runs
                  FROM batting_innings
                  WHERE DATE(match_date) >= DATE('2022-01-01')
                    AND balls_faced >= 10
                ),
                agg AS (
                  SELECT player_id,
                         COUNT(*) AS n,
                         AVG(runs) AS avg_runs,
                         AVG(runs * runs) AS avg_runs_sq
                  FROM filt
                  GROUP BY player_id
                )
                SELECT p.name,
                       ROUND(agg.avg_runs,2) AS avg_runs,
                       ROUND(CASE
                         WHEN n > 1 THEN sqrt(agg.avg_runs_sq - (agg.avg_runs * agg.avg_runs))
                         ELSE NULL
                       END, 2) AS stdev_runs,
                       n AS innings_count
                FROM agg
                JOIN players p ON p.player_id = agg.player_id
                WHERE innings_count >= 1
                ORDER BY stdev_runs ASC NULLS LAST, avg_runs DESC;
            ".

Definition Q20_sql : pystr :=
  str "
                /* Expected tables:
                   batting_totals(player_id, format, matches, runs_total, outs)
                */
                WITH per_format AS (
                  SELECT player_id, format, matches,
                         CAST(runs_total AS FLOAT)/NULLIF(outs,0) AS batting_avg
                  FROM batting_totals
                ),
                pivot AS (
                  SELECT player_id,
                         SUM(CASE WHEN format='Test' THEN matches ELSE 0 END) AS test_matches,
                         SUM(CASE WHEN format='ODI'  THEN matches ELSE 0 END) AS odi_matches,
                         SUM(CASE WHEN format='T20I' THEN matches ELSE 0 END) AS t20i_matches,
                         AVG(CASE WHEN format='Test' THEN batting_avg END) AS test_avg,
                         AVG(CASE WHEN format='ODI'  THEN batting_avg END) AS odi_avg,
                         AVG(CASE WHEN format='T20I' THEN batting_avg END) AS t20i_avg,
                         SUM(matches) AS total_matches
                  FROM per_format
                  GROUP BY player_id
                )
                SELECT p.name,
                       test_matches, ROUND(test_avg,2) AS test_avg,
                       odi_matches,  ROUND(odi_avg,2)  AS odi_avg,
                       t20i_matches, ROUND(t20i_avg,2) AS t20i_avg,
                       total_matches
                FROM pivot
                JOIN players p ON p.player_id = pivot.player_id
                WHERE total_matches >= 20
                ORDER BY total_matches DESC;
            ".

Definition Q21_sql : pystr :=
  str "
                /* Expected tables:
                   player_format_summary(player_id, format, runs_scored, batting_average, strike_rate,
                                         wickets_taken, bowling_average, economy_rate, catches, stumpings)
                */
                WITH scored AS (
                  SELECT player_id, format,
                    ((runs_scored * 0.01) + (batting_average * 0.5) + (strike_rate * 0.3)) AS batting_points,
                    ((wickets_taken * 2.0) + ((50 - bowling_average) * 0.5) + ((6 - economy_rate) * 2.0)) AS bowling_points,
                    (catches * 0.5 + stumpings * 1.0) AS fielding_points
                  FROM player_format_summary
                ),
                total AS (
                  SELECT player_id, format,
                         batting_points + bowling_points + fielding_points AS total_points
                  FROM scored
                )
                SELECT p.name, format,
                       ROUND(total_points,2) AS total_points
                FROM total
                JOIN players p ON p.player_id = total.player_id
                ORDER BY format, total_points DESC;
            ".

Definition Q22_sql : pystr :=
  str "
                /* Expected tables:
                   matches(match_id, match_date, team1, team2, winner_team, victory_type, victory_margin, toss_decision, venue_id, batting_first_team)
                   venues(venue_id, venue_name)
                */
                WITH recent AS (
                  SELECT * FROM matches
                  WHERE DATE(match_date) >= DATE('now', '-3 years')
                ),
                normalized AS (
                  SELECT CASE WHEN team1 < team2 THEN team1 ELSE team2 END AS team_a,
                         CASE WHEN team1 < team2 THEN team2 ELSE team1 END AS team_b,
                         *
                  FROM recent
                ),
                base AS (
                  SELECT team_a, team_b,
                         COUNT(*) AS total_matches,
                         SUM(CASE WHEN winner_team = team_a THEN 1 ELSE 0 END) AS wins_a,
                         SUM(CASE WHEN winner_team = team_b THEN 1 ELSE 0 END) AS wins_b,
                         AVG(CASE WHEN winner_team = team_a THEN victory_margin END) AS avg_margin_a,
                         AVG(CASE WHEN winner_team = team_b THEN victory_margin END) AS avg_margin_b,
                         SUM(CASE WHEN batting_first_team = team_a THEN 1 ELSE 0 END) AS a_bat_first_cnt,
                         SUM(CASE WHEN batting_first_team = team_b THEN 1 ELSE 0 END) AS b_bat_first_cnt
                  FROM normalized
                  GROUP BY team_a, team_b
                  HAVING COUNT(*) >= 5
                )
                SELECT team_a, team_b,
                       total_matches,
                       wins_a, wins_b,
                       ROUND(wins_a * 100.0 / total_matches,2) AS win_pct_a,
                       ROUND(wins_b * 100.0 / total_matches,2) AS win_pct_b,
                       ROUND(avg_margin_a,2) AS avg_victory_margin_when_a_wins,
                       ROUND(avg_margin_b,2) AS avg_victory_margin_when_b_wins
                FROM base
                ORDER BY total_matches DESC, ABS(win_pct_a - win_pct_b) DESC;
            ".

Definition Q23_sql : pystr :=
  str "
                /* Expected tables:
                   batting_innings(player_id, match_date, runs, balls_faced)
                */
                WITH last10 AS (
                  SELECT player_id, match_date, runs, balls_faced,
                         ROW_NUMBER() OVER (PARTITION BY player_id ORDER BY DATE(match_date) DESC) AS rn
                  FROM batting_innings
                ),
                scoped AS (
                  SELECT * FROM last10 WHERE rn <= 10
                ),
                last5 AS (
                  SELECT player_id, AVG(runs*1.0) AS avg_last5
                  FROM scoped WHERE rn <= 5 GROUP BY player_id
                ),
                last10agg AS (
                  SELECT player_id,
                         AVG(runs*1.0) AS avg_last10,
                         AVG(CASE WHEN balls_faced>0 THEN (runs*100.0/balls_faced) END) AS avg_sr_last10,
                         SUM(CASE WHEN runs >= 50 THEN 1 ELSE 0 END) AS fifties_last10,
                         COUNT(*) AS n,
                         AVG(runs*1.0) AS mean_r,
                         AVG((runs*1.0)*(runs*1.0)) AS mean_r2
                  FROM scoped
                  GROUP BY player_id
                ),
                merged AS (
                  SELECT l10.player_id,
                         l5.avg_last5,
                         l10.avg_last10,
                         l10.avg_sr_last10,
                         l10.fifties_last10,
                         l10.n,
                         sqrt(l10.mean_r2 - (l10.mean_r*l10.mean_r)) AS stdev_r
                  FROM last10agg l10
                  LEFT JOIN last5 l5 ON l5.player_id = l10.player_id
                )
                SELECT p.name,
                       ROUND(avg_last5,2) AS avg_last5,
                       ROUND(avg_last10,2) AS avg_last10,
                       ROUND(avg_sr_last10,2) AS sr_last10,
                       fifties_last10,
                       ROUND(stdev_r,2) AS consistency_stdev,
                       CASE
                         WHEN avg_last5 >= 50 AND stdev_r <= 15 THEN 'Excellent Form'
                         WHEN avg_last5 >= 35 THEN 'Good Form'
                         WHEN avg_last5 >= 20 THEN 'Average Form'
                         ELSE 'Poor Form'
                       END AS form_bucket
                FROM merged
                JOIN players p ON p.player_id = merged.player_id
                ORDER BY form_bucket, avg_last5 DESC;
            ".

Definition Q24_sql : pystr :=
  str "
                /* Expected tables:
                   partnerships(partnership_id, innings_id, runs)
                   partnership_players(partnership_id, player_id, batting_position)
                   players(player_id, name)
                */
                WITH pairs AS (
                  SELECT pp1.player_id AS p1,
                         pp2.player_id AS p2,
                         pr.runs
                  FROM partnership_players pp1
                  JOIN partnership_players pp2
                    ON pp1.partnership_id = pp2.partnership_id
                   AND ABS(pp1.batting_position - pp2.batting_position) = 1
                   AND pp1.player_id < pp2.player_id
                  JOIN partnerships pr ON pr.partnership_id = pp1.partnership_id
                ),
                stats AS (
                  SELECT p1, p2,
                         COUNT(*) AS partnerships_played,
                         AVG(runs*1.0) AS avg_runs,
                         SUM(CASE WHEN runs >= 50 THEN 1 ELSE 0 END) AS partnerships_50_plus,
                         MAX(runs) AS highest
                  FROM pairs
                  GROUP BY p1, p2
                  HAVING COUNT(*) >= 5
                )
                SELECT pA.name AS player_a, pB.name AS player_b,
                       ROUND(avg_runs,2) AS avg_partnership,
                       partnerships_50_plus,
                       highest,
                       ROUND(partnerships_50_plus * 100.0 / partnerships_played,2) AS success_rate_pct
                FROM stats
                JOIN players pA ON pA.player_id = stats.p1
                JOIN players pB ON pB.player_id = stats.p2
                ORDER BY success_rate_pct DESC, avg_partnership DESC, highest DESC;
            ".

Definition Q25_sql : pystr :=
  str "
                /* Expected tables:
                   batting_innings(player_id, match_date, runs, balls_faced, match_id)
                */
                WITH base AS (
                  SELECT player_id,
                         strftime('%Y', match_date) AS y,
                         ((CAST(strftime('%m', match_date) AS INT) - 1) / 3) + 1 AS q,
                         match_id, runs, balls_faced
                  FROM batting_innings
                ),
                per_q AS (
                  SELECT player_id, y || 'Q' || q AS yrq,
                         COUNT(DISTINCT match_id) AS matches_q,
                         AVG(runs*1.0) AS avg_runs_q,
                         AVG(CASE WHEN balls_faced>0 THEN (runs*100.0/balls_faced) END) AS avg_sr_q
                  FROM base
                  GROUP BY player_id, yrq
                  HAVING COUNT(DISTINCT match_id) >= 3
                ),
                ranked AS (
                  SELECT *,
                         ROW_NUMBER() OVER (PARTITION BY player_id ORDER BY yrq) AS rn
                  FROM per_q
                ),
                delta AS (
                  SELECT p1.player_id, p1.yrq,
                         p1.avg_runs_q,
                         p1.avg_sr_q,
                         (p1.avg_runs_q - p0.avg_runs_q) AS d_runs,
                         (p1.avg_sr_q - p0.avg_sr_q) AS d_sr
                  FROM ranked p1
                  LEFT JOIN ranked p0
                    ON p0.player_id = p1.player_id AND p0.rn = p1.rn - 1
                ),
                coverage AS (
                  SELECT player_id, COUNT(*) AS qtrs FROM per_q GROUP BY player_id
                )
                SELECT p.name,
                       yrq,
                       ROUND(avg_runs_q,2) AS avg_runs,
                       ROUND(avg_sr_q,2) AS avg_sr,
                       ROUND(d_runs,2) AS delta_runs_vs_prev_qtr,
                       ROUND(d_sr,2) AS delta_sr_vs_prev_qtr,
                       CASE
                         WHEN d_runs IS NULL THEN '" ++ [8212%N] ++ str "'
                         WHEN d_runs > 0 AND d_sr > 0 THEN 'Improving'
                         WHEN d_runs < 0 AND d_sr < 0 THEN 'Declining'
                         ELSE 'Stable'
                       END AS trend_this_qtr,
                       CASE
                         WHEN c.qtrs >= 6 THEN
                           CASE
                             WHEN AVG(CASE WHEN d_runs > 0 AND d_sr > 0 THEN 1 ELSE 0 END) OVER (PARTITION BY d.player_id) >= 0.6
                               THEN 'Career Ascending'
                             WHEN AVG(CASE WHEN d_runs < 0 AND d_sr < 0 THEN 1 ELSE 0 END) OVER (PARTITION BY d.player_id) >= 0.6
                               THEN 'Career Declining'
                             ELSE 'Career Stable'
                           END
                         ELSE 'Insufficient span'
                       END AS career_phase_estimate
                FROM delta d
                JOIN players p ON p.player_id = d.player_id
                JOIN coverage c ON c.player_id = d.player_id
                ORDER BY p.name, yrq;
            ".

(** The catalog, in the order the source lists it: label and SQL text. *)
Definition queries : list (pystr * pystr) := [
  (str "Q1. Players from India: full name, role, batting & bowling styles", Q1_sql);
  (str "Q2. Matches in the last 30 days (desc)", Q2_sql);
  (str "Q3. Top 10 ODI run scorers (name, total runs, avg, 100s)", Q3_sql);
  (str "Q4. Venues with capacity > 50,000 (largest first)", Q4_sql);
  (str "Q5. Matches won by each team (most wins first)", Q5_sql);
  (str "Q6. Player counts by playing role", Q6_sql);
  (str "Q7. Highest individual batting score per format", Q7_sql);
  (str "Q8. Series that started in 2024", Q8_sql);
  (str "Q9. All-rounders with >1000 runs AND >50 wickets (by format)", Q9_sql);
  (str "Q10. Last 20 completed matches (desc)", Q10_sql);
  (str "Q11. Players with >=2 formats: runs by format + overall batting avg", Q11_sql);
  (str "Q12. Team wins at home vs away", Q12_sql);
  (str "Q13. Partnerships (adjacent batters) >= 100 runs in an innings", Q13_sql);
  (str "Q14. Bowling at venues (>=3 matches, >=4 overs each match)", Q14_sql);
  (str "Q15. Players in close matches (<50 runs OR <5 wickets)", Q15_sql);
  (str "Q16. Since 2020: yearly avg runs & strike rate (>=5 matches/year)", Q16_sql);
  (str "Q17. Does winning the toss help? Win% by toss decision", Q17_sql);
  (str "Q18. Most economical bowlers (ODI & T20, min 10 matches, avg >=2 overs)", Q18_sql);
  (str "Q19. Consistency: avg runs & stdev (since 2022, >=10 balls/inn)", Q19_sql);
  (str "Q20. Matches & batting average by format (players with >=20 total matches)", Q20_sql);
  (str "Q21. Composite performance score & ranking by format", Q21_sql);
  (str "Q22. Head-to-head analysis (last 3 years, pairs with >=5 matches)", Q22_sql);
  (str "Q23. Recent form (last 10 innings): avgs, SR trend, 50+ counts, consistency", Q23_sql);
  (str "Q24. Best batting partnerships (adjacent, >=5 partnerships)", Q24_sql);
  (str "Q25. Time-series: quarterly batting trend & career phase (>=6 quarters)", Q25_sql)
].

(** *** Reading a SQL text

    What it means for a template to start with a keyword, to be free of
    writing statements and to have no parameter marker. *)

(** White space of the SQL lexer. *)
Definition sql_isspace (c : N) : bool :=
  ((c =? 9) || (c =? 10) || (c =? 12) || (c =? 13) || (c =? 32))%N.

(** The text after its leading white space and block comments. *)
Fixpoint sql_body (in_comment : bool) (s : pystr) : pystr :=
  match s with
  | [] => []
  | c :: r =>
    if in_comment then
      match r with
      | d :: r' => if ((c =? 42) && (d =? 47))%N then sql_body false r' else sql_body true r
      | [] => []
      end
    else if sql_isspace c then sql_body false r
    else
      match r with
      | d :: r' => if ((c =? 47) && (d =? 42))%N then sql_body true r' else s
      | [] => s
      end
  end.

Definition is_word_char (c : N) : bool :=
  ((65 <=? c) && (c <=? 90) || (97 <=? c) && (c <=? 122)
   || (48 <=? c) && (c <=? 57) || (c =? 95))%N.

Definition upper_char (c : N) : N :=
  (if (97 <=? c) && (c <=? 122) then c - 32 else c)%N.

(** The words of a text (maximal runs of letters, digits and underscores),
    in upper case. *)
Fixpoint sql_words_go (cur : pystr) (s : pystr) : list pystr :=
  match s with
  | [] => match cur with [] => [] | _ => [reverse cur] end
  | c :: r =>
    if is_word_char c then sql_words_go (upper_char c :: cur) r
    else match cur with
         | [] => sql_words_go [] r
         | _ => reverse cur :: sql_words_go [] r
         end
  end.

Definition sql_words (s : pystr) : list pystr := sql_words_go [] s.

(** The first word of the statement proper. *)
Definition first_keyword (s : pystr) : pystr :=
  default [] (head (sql_words (sql_body false s))).

(** The keywords that begin a statement which writes. *)
Definition writing_keywords : list pystr :=
  str <$> ["INSERT"; "UPDATE"; "DELETE"; "REPLACE"; "DROP"; "ALTER"; "CREATE";
           "ATTACH"; "DETACH"; "PRAGMA"; "VACUUM"; "REINDEX"]%string.

(** A read-only statement: it starts with SELECT, or with WITH and then
    reads; no word of it is a writing keyword. *)
Definition read_only (s : pystr) : bool :=
  (bool_decide (first_keyword s = str "SELECT") || bool_decide (first_keyword s = str "WITH"))
  && bool_decide (str "SELECT" ∈ sql_words s)
  && forallb (λ w, bool_decide (w ∉ writing_keywords)) (sql_words s).

(** The parameter markers of a text: [?], and [:], [@] or [$] before a
    name (SQLite), and [%s] (the format style of the MySQL driver). *)
Fixpoint count_markers (s : pystr) : nat :=
  match s with
  | [] => 0
  | c :: r =>
    (if (c =? 63)%N then 1
     else match r with
          | d :: _ =>
            if ((c =? 58) || (c =? 64) || (c =? 36))%N && is_word_char d then 1
            else if ((c =? 37) && (d =? 115))%N then 1
            else 0
          | [] => 0
          end) + count_markers r
  end.

(** ** The standard deviation of Q19 and Q23

    The two templates compute a spread per player from AVG, sqrt and ROUND.
    The functions below are those expressions on the run values of one
    group.  A value of the column [runs] is an INTEGER or NULL ([None]);
    SQLite's REAL is a binary64 float, and a REAL result that is not a
    number is stored as NULL. *)

Abbreviation SqlReal := (option float).

(** A REAL as SQLite keeps it: NaN becomes NULL. *)
Definition sql_result (x : float) : SqlReal := if PrimFloat.is_nan x then None else Some x.

(** An integer as a binary64 value: the nearest one, ties to even. *)
Definition SF_of_Z (z : Z) : spec_float := binary_normalize prec emax z 0 false.

(** [z * 1.0]: an INTEGER as a REAL. *)
Definition sql_real (z : Z) : float := SF2Prim (SF_of_Z z).

Definition sql_sub (a b : SqlReal) : SqlReal := x ← a; y ← b; sql_result (PrimFloat.sub x y).
Definition sql_mul (a b : SqlReal) : SqlReal := x ← a; y ← b; sql_result (PrimFloat.mul x y).

(** AVG over the values of a group that are not NULL: their sum, added up
    from 0.0 in the order of the rows, divided by their number; NULL when
    there is none.  (From version 3.44 on SQLite carries a correction term
    along with the sum; it is zero whenever no addition rounds.) *)
Definition sql_avg (xs : list float) : SqlReal :=
  match xs with
  | [] => None
  | _ => sql_result (PrimFloat.div (foldl PrimFloat.add 0%float xs)
                                   (sql_real (Z.of_nat (length xs))))
  end.

(** sqrt: NULL for NULL; the root of a negative number is not a number,
    hence NULL. *)
Definition sql_sqrt (a : SqlReal) : SqlReal := x ← a; sql_result (PrimFloat.sqrt x).

(** ROUND(x, 2) goes through SQLite's own decimal printer, whose digits
    have changed between versions; what every version does is to answer
    the number with two decimals next to x when x is not at a tie.  A
    rounded value is kept as its count of hundredths: 816 is 8.16.

    [clear_of_ties x k]: x is within half a hundredth of k/100, with a
    margin of (|x| + 1) / 10^9 to spare. *)
Definition clear_of_ties (x : float) (k : Z) : bool :=
  match Prim2SF x with
  | S754_zero _ => (k =? 0)%Z
  | S754_finite s m e =>
    (e <? 0)%Z &&
    (let scale := 2 ^ (- e) in
     let k' := if s then - k else k in
     2 * 10 ^ 9 * Z.abs (100 * Z.pos m - k' * scale) + 200 * (Z.pos m + scale)
       <=? 10 ^ 9 * scale)%Z
  | _ => false
  end.

(** What is assumed of ROUND(x, 2). *)
Definition rounds_to_hundredths (sql_round2 : float → Z) : Prop :=
  ∀ x k, clear_of_ties x k = true → sql_round2 x = k.

(** One such rounding: the count of hundredths nearest to the binary value
    of x, a half going away from zero. *)
Definition nearest_hundredths (x : float) : Z :=
  match Prim2SF x with
  | S754_finite s m e =>
    let q := (if e <? 0 then (200 * Z.pos m + 2 ^ (- e)) / (2 * 2 ^ (- e))
              else 100 * Z.pos m * 2 ^ e)%Z in
    if s then (- q)%Z else q
  | _ => 0%Z
  end.

(** The argument both templates hand to sqrt: the mean of the squares
    minus the square of the mean. *)
Definition variance_arg (xs : list float) : SqlReal :=
  let mean := sql_avg xs in
  let mean_sq := sql_avg ((λ r, PrimFloat.mul r r) <$> xs) in
  sql_sub mean_sq (sql_mul mean mean).

(** [runs*1.0] on the rows of a group, as AVG sees them: the rows whose
    value is NULL are skipped. *)
Definition non_null (runs : list (option Z)) : list float := omap (fmap sql_real) runs.

(** Q19, column stdev_runs, for the innings of one player that pass the
    filter (date and balls faced); [n] is COUNT( * ), which counts every
    row. *)
Definition Q19_stdev_runs (sql_round2 : float → Z) (runs : list (option Z)) : option Z :=
  let n := length runs in
  sql_round2 <$> (if 1 <? n then sql_sqrt (variance_arg (non_null runs)) else None).

(** Q23, column consistency_stdev, for the innings of one player, the most
    recent first: the first ten are in scope. *)
Definition Q23_consistency_stdev (sql_round2 : float → Z) (runs : list (option Z)) : option Z :=
  let scoped := take 10 runs in
  let stdev_r := sql_sqrt (variance_arg (non_null scoped)) in
  sql_round2 <$> stdev_r.

(** ** Outcomes named in the properties *)

(** What [run_select] does once the prefix check has passed. *)
Definition select_accepted (eng : Engine) (database select_sql : pystr) : M DataFrame :=
  match connect eng (Some database) with
  | Refuse msg => (Raise (Error msg), [EConnect (Some database)])
  | Answer _ =>
    match read_sql eng database select_sql with
    | Refuse msg => (Raise (DatabaseError msg), [EConnect (Some database); EReadSql select_sql])
    | Answer df => (Return df, [EConnect (Some database); EReadSql select_sql; EClose])
    end
  end.

(** What discovery stores for one database: the structure built when the
    body of the [try] runs to its end, nothing when it raises or takes the
    [continue]. *)
Definition db_entry (eng : Engine) (db_name : pystr) : option DbStructure :=
  match (discover_db eng db_name).1 with
  | Return (Some db_structure) => Some db_structure
  | _ => None
  end.

(** A failure of the engine while one database is visited: its connection
    is refused, or the listing of its base tables, the column query of one
    of them, or the listing of its views. *)
Definition db_failure (eng : Engine) (db_name : pystr) : Prop :=
  (∃ msg, connect eng (Some db_name) = Refuse msg)
  ∨ (∃ msg, base_tables eng db_name = Refuse msg)
  ∨ (∃ tbls tbl msg, base_tables eng db_name = Answer tbls ∧ tbl ∈ tbls
       ∧ table_columns eng db_name tbl = Refuse msg)
  ∨ (∃ msg, view_names eng db_name = Refuse msg).

(** What discovery returns on the engine of the examples. *)
Definition cricbuzz_structure : DbStructure :=
  {| tables := {[ str "players" := column_descriptor <$> players_columns ]};
     views := {[ str "top_players" := () ]};
     functions := ∅; procedures := ∅ |}.

Definition demo_schema : gmap pystr DbStructure :=
  <[ str "cricbuzz" := cricbuzz_structure ]>
  (<[ str "staging" :=
       {| tables := {[ str "tmp_import" := [] ]};
          views := ∅; functions := ∅; procedures := ∅ |} ]> ∅).

(** Five innings whose mean of squares falls below the square of the mean
    in binary64, every sum being exact. *)
Definition cancelling_runs : list (option Z) :=
  replicate 4 (Some 42443369%Z) ++ [Some 42443370%Z].

(** Five innings of one and the same value, large enough for the sum of
    its squares to be rounded. *)
Definition large_equal_runs : list (option Z) := replicate 5 (Some 94906262%Z).

(** An integer that binary64 holds exactly, with room to spare. *)
Definition small (z : Z) : Prop := (Z.abs z < 2 ^ 53)%Z.

(** [p] with [n] zero bits appended. *)
Definition shift_pos_nat (n : nat) (p : positive) : positive := Nat.iter n xO p.

(** The binary64 form of a positive integer of at most 53 bits: its bits,
    filled up to 53 with zero bits. *)
Definition canon (s : bool) (v : positive) : spec_float :=
  let d := Pos.to_nat (digits2_pos v) in
  S754_finite s (shift_pos_nat (53 - d) v) (Z.of_nat d - 53).



(** The text begins with SELECT or WITH once trimmed, in either case. *)
Definition begins_with_keyword (sql_text : pystr) : bool :=
  py_startswith (py_lower (py_strip sql_text)) (str "select")
  || py_startswith (py_lower (py_strip sql_text)) (str "with").

(** ** The rest of [utils/db_connection.py] and its callers *)

(** [a <= b] on text: by code point, a proper prefix coming first. *)
Fixpoint py_str_le (a b : pystr) : bool :=
  match a, b with
  | [], _ => true
  | _ :: _, [] => false
  | x :: a', y :: b' =>
    if (x <? y)%N then true else if (x =? y)%N then py_str_le a' b' else false
  end.

(** [sorted(l)] on a list of texts. *)
Definition py_sorted (l : list pystr) : list pystr :=
  merge_sort (λ a b : pystr, py_str_le a b) l.

(** [list(d.keys())] of a dict kept as a map.  The keys of a dict are
    distinct, so what [sorted] makes of them does not depend on their
    order. *)
Definition dict_keys {V} (d : gmap pystr V) : list pystr := (map_to_list d).*1.

Definition list_databases (eng : Engine) : M (list pystr) :=
  schema ← get_mysql_schema eng;
  ret (py_sorted (dict_keys schema)).

Definition list_tables (eng : Engine) (database : pystr) : M (list pystr) :=
  schema ← get_mysql_schema eng;
  match schema !! database with
  | None => ret []
  | Some db_structure => ret (py_sorted (dict_keys (tables db_structure)))
  end.

Definition get_table_columns (eng : Engine) (database table : pystr) : M (list ColumnDescriptor) :=
  schema ← get_mysql_schema eng;
  ret (match schema !! database with
       | None => []
       | Some db_structure => default [] (tables db_structure !! table)
       end).

(** The connections asked for and the number of closes among the events. *)
Definition connections (events : list Event) : list (option pystr) :=
  events ≫= λ e, match e with EConnect database => [database] | _ => [] end.

Definition closes (events : list Event) : nat :=
  length (events ≫= λ e, match e with EClose => [()] | _ => [] end).

(** *** The form that adds a row ([pages/crud_operations.py]) *)

(** [needle in hay] *)
Fixpoint py_contains (hay needle : pystr) : bool :=
  py_startswith hay needle
  || match hay with
     | [] => false
     | _ :: r => py_contains r needle
     end.

(** [d[k] = v] on a dict kept in insertion order: a key that is there
    keeps its place. *)
Fixpoint dict_set {V} (d : list (pystr * V)) (k : pystr) (v : V) : list (pystr * V) :=
  match d with
  | [] => [(k, v)]
  | (k', v') :: r => if decide (k' = k) then (k, v) :: r else (k', v') :: dict_set r k v
  end.

(** ["auto_increment" in (col["extra"] or "").lower()] *)
Definition is_auto_increment (col : ColumnDescriptor) : bool :=
  py_contains (py_lower (col_extra col)) (str "auto_increment").

(** The label of the text input of a column: [f"{name} ({dtype})"]. *)
Definition input_label (col : ColumnDescriptor) : pystr :=
  col_name col ++ str " (" ++ col_type col ++ str ")".

(** What the form reads for a column: the text its input holds; [typed]
    gives the text of each input, by label. *)
Definition typed_value (typed : pystr → pystr) (col : ColumnDescriptor) : pystr :=
  typed (input_label col).

(** One round of the loop over [cols_meta] that fills [inputs]. *)
Definition add_row_step (typed : pystr → pystr) (inputs : list (pystr * option pystr))
    (col : ColumnDescriptor) : list (pystr * option pystr) :=
  if is_auto_increment col then inputs
  else
    let val := typed_value typed col in
    dict_set inputs (col_name col)
      (if bool_decide (py_strip val = []) then None else Some val).

Definition add_row_inputs (typed : pystr → pystr) (cols_meta : list ColumnDescriptor)
    : list (pystr * option pystr) :=
  foldl (add_row_step typed) [] cols_meta.

(** [clean = {k: v for k, v in inputs.items() if v is not None}] *)
Definition add_row_clean (inputs : list (pystr * option pystr)) : list (pystr * PyVal) :=
  omap (λ kv, (λ v, (kv.1, VStr v)) <$> kv.2) inputs.

(** What the form does when it is submitted. *)
Definition add_row_submit (eng : Engine) (database table : pystr)
    (typed : pystr → pystr) (cols_meta : list ColumnDescriptor) : M (Z * pystr) :=
  insert_row eng database table (add_row_clean (add_row_inputs typed cols_meta)).

(** *** The default choices of the page *)

(** [l.index(x)]: the first position of [x]; [None] is the ValueError of
    a value that is not there. *)
Fixpoint py_index (l : list pystr) (x : pystr) : option nat :=
  match l with
  | [] => None
  | y :: r => if decide (y = x) then Some 0 else S <$> py_index r x
  end.

Definition default_table (tbls : list pystr) : pystr :=
  if bool_decide (str "trending_players" ∈ tbls) then str "trending_players"
  else if bool_decide (str "player_squad" ∈ tbls) then str "player_squad"
  else match tbls with
       | t :: _ => t
       | [] => []
       end.

(** [max(0, tables.index(default_table)) if tables else 0] *)
Definition default_table_index (tbls : list pystr) : option nat :=
  match tbls with
  | [] => Some 0
  | _ => (λ i, 0 `max` i) <$> py_index tbls (default_table tbls)
  end.

(** [max(0, dbs.index("cricbuzz")) if "cricbuzz" in dbs else 0] *)
Definition default_database_index (dbs : list pystr) : option nat :=
  if bool_decide (str "cricbuzz" ∈ dbs)
  then (λ i, 0 `max` i) <$> py_index dbs (str "cricbuzz")
  else Some 0.

(** *** Reading the prefix test of [run_select] *)

(** [c] is the lower-case ASCII letter [l] or its capital. *)
Definition is_letter_ci (c l : N) : bool := ((c =? l) || (c + 32 =? l))%N.

(** [t] begins with the letters of [p], in either case. *)
Fixpoint ci_prefix (t p : pystr) {struct p} : bool :=
  match p, t with
  | [], _ => true
  | l :: p', c :: t' => is_letter_ci c l && ci_prefix t' p'
  | _ :: _, [] => false
  end.

(** The computation ended with [return]. *)
Definition returned {A} (m : M A) : bool :=
  match m.1 with
  | Return _ => true
  | Raise _ => false
  end.

(** The statements handed to [cursor.execute], each with its parameters. *)
Definition executed (events : list Event) : list (pystr * list PyVal) :=
  events ≫= λ e, match e with EExecute sql params => [(sql, params)] | _ => [] end.

(** A statement sent to the engine. *)
Definition is_statement (e : Event) : bool :=
  match e with
  | EExecute _ _ | EReadSql _ => true
  | _ => false
  end.

(** An operation that works in at most one session.  Its events are, in
    this order, the request of a connection, one statement and the close,
    cut short where it raises: nothing at all, or the connection alone,
    or the connection and the statement; the close is there exactly when
    it returns. *)
Definition one_session {A} (m : M A) : Prop :=
  match m.2 with
  | [] => returned m = false
  | [EConnect _] => returned m = false
  | [EConnect _; e] => is_statement e = true ∧ returned m = false
  | [EConnect _; e; EClose] => is_statement e = true ∧ returned m = true
  | _ => False
  end.

(** A database that discovery can read to the end: its connection is
    accepted, it has at least one base table, and the engine answers the
    column query of each of them and the listing of the views. *)
Definition db_readable (eng : Engine) (db_name : pystr) : Prop :=
  (∃ u, connect eng (Some db_name) = Answer u)
  ∧ ∃ tbls vs, base_tables eng db_name = Answer tbls ∧ tbls ≠ []
      ∧ (∀ tbl, tbl ∈ tbls → ∃ cols, table_columns eng db_name tbl = Answer cols)
      ∧ view_names eng db_name = Answer vs.

(** A form in which only the name is filled in, with a leading blank. *)
Definition demo_typed (label : pystr) : pystr :=
  if bool_decide (label = str "name (varchar)") then str " Test Player" else [].

(** A character that can begin a parameter marker: [?], [:], [@], [$]
    or [%]; a text without any is plain. *)
Definition marker_char (c : N) : bool :=
  ((c =? 63) || (c =? 58) || (c =? 64) || (c =? 36) || (c =? 37))%N.

Definition plain_text (s : pystr) : bool := forallb (λ c, negb (marker_char c)) s.

(** The cases of an operation: connection refused, statement refused,
    statement answered. *)
Ltac session_cases eng database :=
  unfold create_connection, pd_read_sql, cur_execute, cursor_execute;
  destruct (connect eng (Some database)) as [[]|]; simpl;
  [ first [ destruct (execute eng _ _ _) | destruct (read_sql eng _ _) ]; simpl | ];
  unfold one_session, returned; cbn; auto.


(** * Properties *)

(** ** Text *)

Lemma py_lstrip_spaces s : forallb py_isspace s = true → py_lstrip s = [].
Proof.
  induction s as [|c s IH]; simpl; [done|].
  intros [Hc Hs]%andb_true_iff. rewrite Hc. auto.
Qed.

Lemma py_lstrip_nil_inv s : py_lstrip s = [] → forallb py_isspace s = true.
Proof.
  induction s as [|c s IH]; simpl; [done|].
  destruct (py_isspace c); [auto | done].
Qed.

Lemma forallb_reverse {A} (f : A → bool) l : forallb f (reverse l) = forallb f l.
Proof.
  induction l as [|x l IH]; [done|].
  rewrite reverse_cons, forallb_app, IH. simpl. rewrite andb_true_r. apply andb_comm.
Qed.

(** A clause is empty after [strip] exactly when it holds white space only
    (the empty text included). *)
Lemma py_strip_nil s : py_strip s = [] ↔ forallb py_isspace s = true.
Proof.
  unfold py_strip, py_rstrip. split.
  - intros H. apply (f_equal reverse) in H. rewrite reverse_involutive in H.
    change (reverse []) with (@nil N) in H.
    apply py_lstrip_nil_inv in H. rewrite forallb_reverse in H.
    destruct (forallb py_isspace s) eqn:E; [done|].
    (* the left strip leaves a text that is not all white space *)
    exfalso. clear -H E. induction s as [|c s IH]; simpl in *; [done|].
    destruct (py_isspace c) eqn:Ec; simpl in *; [auto|].
    rewrite Ec in H. done.
  - intros H. rewrite (py_lstrip_spaces _ H). done.
Qed.

(** ** Read operations *)

(** C1. A text whose trimmed, lower-cased form does not start with
    [select] is refused with ValueError and nothing reaches the engine: no
    connection, no statement.  A text that does start with it passes: the
    connection is opened and the text is sent as it is, whatever follows
    the prefix. *)
Theorem C1_run_select_prefix_check (eng : Engine) (database select_sql : pystr) :
  if py_startswith (py_lower (py_strip select_sql)) (str "select")
  then run_select eng database select_sql = select_accepted eng database select_sql
       ∧ (∀ msg, (run_select eng database select_sql).1 ≠ Raise (ValueError msg))
       ∧ head (run_select eng database select_sql).2 = Some (EConnect (Some database))
  else ∃ msg, run_select eng database select_sql = (Raise (ValueError msg), []).
Proof.
  unfold run_select, select_accepted.
  destruct (py_startswith _ _); simpl; [|eauto].
  unfold create_connection, pd_read_sql.
  destruct (connect eng (Some database)); simpl; [|by repeat split].
  destruct (read_sql eng database select_sql); simpl; by repeat split.
Qed.

Example run_select_rejects_drop :
  run_select demo_engine (str "cricbuzz") (str "DROP TABLE players;")
  = (Raise (ValueError (str "Only SELECT queries are allowed here.")), []).
Proof. reflexivity. Qed.

Example run_select_accepts_select :
  run_select demo_engine (str "cricbuzz") (str "select * from players;")
  = (Return players_rows,
     [EConnect (Some (str "cricbuzz")); EReadSql (str "select * from players;"); EClose]).
Proof. reflexivity. Qed.

(** The check looks at the prefix only: a second statement after the
    first is sent along. *)
Example run_select_prefix_only :
  statements (run_select demo_engine (str "cricbuzz")
                (str "  SeLeCt 1; DROP TABLE players;")).2
  = [str "  SeLeCt 1; DROP TABLE players;"].
Proof. reflexivity. Qed.

(** ** Mutations with a required clause *)

(** C2. [delete_rows] with a WHERE clause that is empty or white space
    only, and [execute_update] with such a SET or WHERE clause, raise
    ValueError and cause no event: no connection is opened and no
    statement is issued. *)
Theorem C2_empty_clause_rejected (eng : Engine) (database table set_clause where_clause : pystr) :
  (forallb py_isspace where_clause = true →
     ∃ msg, delete_rows eng database table where_clause = (Raise (ValueError msg), []))
  ∧ (forallb py_isspace set_clause = true ∨ forallb py_isspace where_clause = true →
     ∃ msg, execute_update eng database table set_clause where_clause
            = (Raise (ValueError msg), [])).
Proof.
  split.
  - intros H%py_strip_nil. unfold delete_rows. rewrite H. eauto.
  - unfold execute_update. intros [H%py_strip_nil | H%py_strip_nil]; rewrite H.
    + eauto.
    + destruct (py_strip set_clause); eauto.
Qed.

Lemma C2_empty_clause_rejected_witness :
  (∃ msg, delete_rows demo_engine (str "cricbuzz") (str "players") (str "   ")
          = (Raise (ValueError msg), []))
  ∧ (∃ msg, execute_update demo_engine (str "cricbuzz") (str "players") (str "team = 'India'") []
          = (Raise (ValueError msg), [])).
Proof.
  split.
  - apply (proj1 (C2_empty_clause_rejected demo_engine (str "cricbuzz") (str "players")
                    [] (str "   "))). reflexivity.
  - apply (proj2 (C2_empty_clause_rejected demo_engine (str "cricbuzz") (str "players")
                    (str "team = 'India'") [])). right. reflexivity.
Defined.

(** With both clauses present the statement is built from the trimmed
    clauses and issued. *)
Example execute_update_runs :
  execute_update demo_engine (str "cricbuzz") (str "players") (str " team = 'India' ") (str "id = 1")
  = (Return (1%Z, str "UPDATE `players` SET team = 'India' WHERE id = 1;"),
     [EConnect (Some (str "cricbuzz"));
      EExecute (str "UPDATE `players` SET team = 'India' WHERE id = 1;") [];
      EClose]).
Proof. reflexivity. Qed.

Example delete_rows_runs :
  delete_rows demo_engine (str "cricbuzz") (str "players") (str "id = 1  ")
  = (Return (1%Z, str "DELETE FROM `players` WHERE id = 1;"),
     [EConnect (Some (str "cricbuzz"));
      EExecute (str "DELETE FROM `players` WHERE id = 1;") [];
      EClose]).
Proof. reflexivity. Qed.

(** ** Reading a table *)











(** ** Inserting a row *)

Lemma insert_row_connected (eng : Engine) database table data :
  connect eng (Some database) = Answer () →
  insert_row eng database table data
  = match execute eng database (insert_sql table data.*1) data.*2 with
    | Answer affected =>
      (Return (affected, insert_sql table data.*1),
       [EConnect (Some database); EExecute (insert_sql table data.*1) data.*2; EClose])
    | Refuse msg =>
      (Raise (Error msg),
       [EConnect (Some database); EExecute (insert_sql table data.*1) data.*2])
    end.
Proof.
  intros Hc. unfold insert_row, create_connection, cur_execute, cursor_execute.
  rewrite Hc. simpl. by destruct (execute eng _ _ _).
Qed.

Lemma insert_row_refused (eng : Engine) database table data msg :
  connect eng (Some database) = Refuse msg →
  insert_row eng database table data = (Raise (Error msg), [EConnect (Some database)]).
Proof.
  intros Hc. unfold insert_row, create_connection. by rewrite Hc.
Qed.




(** C10. [insert_row] checks nothing about the map.  It never raises
    ValueError; its first act is to open the connection; every key of the
    map, whatever the column is, becomes a column of the statement and
    every value a parameter; and for the empty map the statement issued on
    an open connection is INSERT INTO `table` () VALUES (); with no
    parameter. *)
Theorem C10_insert_row_no_validation (eng : Engine) (database table : pystr)
    (data : list (pystr * PyVal)) :
  (∀ msg, (insert_row eng database table data).1 ≠ Raise (ValueError msg))
  ∧ head (insert_row eng database table data).2 = Some (EConnect (Some database))
  ∧ length (insert_cols data.*1) = length data
  ∧ (∀ k v, (k, v) ∈ data → str "`" ++ k ++ str "`" ∈ insert_cols data.*1)
  ∧ insert_sql table [] = str "INSERT INTO `" ++ table ++ str "` () VALUES ();"
  ∧ match connect eng (Some database) with
    | Answer _ =>
      (insert_row eng database table data).2 !! 1
        = Some (EExecute (insert_sql table data.*1) data.*2)
      ∧ (insert_row eng database table []).2 !! 1
        = Some (EExecute (str "INSERT INTO `" ++ table ++ str "` () VALUES ();") [])
    | Refuse _ => (insert_row eng database table data).2 = [EConnect (Some database)]
    end.
Proof.
  destruct (connect eng (Some database)) as [[]|msg] eqn:Hc.
  - rewrite !insert_row_connected by done. repeat split.
    + by destruct (execute eng _ _ _).
    + by destruct (execute eng _ _ _).
    + unfold insert_cols. by rewrite !length_fmap.
    + intros k v Hin. unfold insert_cols.
      apply list_elem_of_fmap. exists k. split; [done|].
      apply list_elem_of_fmap. by exists (k, v).
    + by destruct (execute eng _ _ _).
    + by destruct (execute eng _ _ _).
  - rewrite !(insert_row_refused _ _ _ _ msg) by done. repeat split.
    + done.
    + unfold insert_cols. by rewrite !length_fmap.
    + intros k v Hin. unfold insert_cols.
      apply list_elem_of_fmap. exists k. split; [done|].
      apply list_elem_of_fmap. by exists (k, v).
Qed.

(** The column flagged auto_increment is not dropped when the map holds
    it; the empty map gives an empty column list. *)
Example insert_row_keeps_auto_increment :
  insert_row demo_engine (str "cricbuzz") (str "players")
    [(str "id", VInt 7); (str "name", VStr (str "Test Player"))]
  = (Return (1%Z, str "INSERT INTO `players` (`id`, `name`) VALUES (%s, %s);"),
     [EConnect (Some (str "cricbuzz"));
      EExecute (str "INSERT INTO `players` (`id`, `name`) VALUES (%s, %s);")
        [VInt 7; VStr (str "Test Player")];
      EClose]).
Proof. reflexivity. Qed.

Example insert_row_empty_map :
  insert_row demo_engine (str "cricbuzz") (str "players") []
  = (Return (1%Z, str "INSERT INTO `players` () VALUES ();"),
     [EConnect (Some (str "cricbuzz"));
      EExecute (str "INSERT INTO `players` () VALUES ();") [];
      EClose]).
Proof. reflexivity. Qed.

(** ** Schema discovery *)

Lemma bind_outcome {A B} (m : M A) (f : A → M B) :
  (m ≫= f).1 = match m.1 with Return a => (f a).1 | Raise e => Raise e end.
Proof.
  destruct m as [[a|e] l]; simpl; [|done].
  unfold mbind, M_bind, bind. by destruct (f a).
Qed.

Lemma cursor_execute_outcome {A} sql params (r : Reply A) :
  (cursor_execute sql params r).1
  = match r with Answer a => Return a | Refuse msg => Raise (Error msg) end.
Proof. unfold cursor_execute. by destruct r. Qed.

Lemma create_connection_outcome eng database :
  (create_connection eng database).1
  = match connect eng database with Answer _ => Return () | Refuse msg => Raise (Error msg) end.
Proof. unfold create_connection. by destruct (connect eng database) as [[]|]. Qed.

Section Discovery.
Context (eng : Engine).

(** The loop over the tables: it stops at the first refused column query;
    otherwise every table of the list is a key, and the value of a key is
    the list of descriptors of the rows the engine answered. *)
Lemma collect_tables_spec db tbls acc :
  match (collect_tables eng db tbls acc).1 with
  | Return m =>
    (∀ tbl, tbl ∈ tbls → is_Some (m !! tbl))
    ∧ (∀ tbl cds, m !! tbl = Some cds →
         acc !! tbl = Some cds
         ∨ (tbl ∈ tbls ∧ ∃ cols, table_columns eng db tbl = Answer cols
                                 ∧ cds = column_descriptor <$> cols))
    ∧ (∀ tbl, tbl ∈ tbls → ∃ cols, table_columns eng db tbl = Answer cols)
    ∧ (∀ tbl, is_Some (acc !! tbl) → is_Some (m !! tbl))
  | Raise e => ∃ tbl msg, e = Error msg ∧ tbl ∈ tbls ∧ table_columns eng db tbl = Refuse msg
  end.
Proof.
  revert acc. induction tbls as [|tbl rest IH]; intros acc; simpl.
  - repeat split; [set_solver | auto | set_solver | auto].
  - rewrite bind_outcome, cursor_execute_outcome.
    destruct (table_columns eng db tbl) as [cols|msg] eqn:Hcols.
    + specialize (IH (<[tbl := column_descriptor <$> cols]> acc)).
      destruct (collect_tables eng db rest _).1 as [m|e].
      * destruct IH as (Hdom & Hval & Hans & Hacc). repeat split.
        -- intros t [->|Ht]%elem_of_cons; [|auto].
           apply Hacc. rewrite lookup_insert_eq. eauto.
        -- intros t cds Hm. destruct (Hval t cds Hm) as [Hin|(Ht & c & Hc & ->)].
           ++ destruct (decide (tbl = t)) as [->|Hne].
              ** rewrite lookup_insert_eq in Hin. injection Hin as <-.
                 right. split; [left|]. eauto.
              ** rewrite lookup_insert_ne in Hin by done. by left.
           ++ right. split; [by right|]. eauto.
        -- intros t [->|Ht]%elem_of_cons; eauto.
        -- intros t Ht. apply Hacc.
           destruct (decide (tbl = t)) as [->|Hne].
           ++ rewrite lookup_insert_eq. eauto.
           ++ by rewrite lookup_insert_ne.
      * destruct IH as (t & msg & -> & Ht & Hr). exists t, msg.
        repeat split; [by right | done].
    + exists tbl, msg. repeat split; [left | done].
Qed.

(** The outcome of the visit of one database, read off the engine. *)
Lemma discover_db_outcome db :
  (discover_db eng db).1 =
  match connect eng (Some db) with
  | Refuse msg => Raise (Error msg)
  | Answer _ =>
    match base_tables eng db with
    | Refuse msg => Raise (Error msg)
    | Answer [] => Return None
    | Answer tbls =>
      match (collect_tables eng db tbls ∅).1 with
      | Raise e => Raise e
      | Return m =>
        match view_names eng db with
        | Refuse msg => Raise (Error msg)
        | Answer vs =>
          Return (Some {| tables := m; views := foldl (λ m v, <[v := ()]> m) ∅ vs;
                          functions := ∅; procedures := ∅ |})
        end
      end
    end
  end.
Proof.
  unfold discover_db.
  rewrite bind_outcome, create_connection_outcome.
  destruct (connect eng (Some db)) as [[]|]; [|done].
  rewrite bind_outcome, cursor_execute_outcome.
  destruct (base_tables eng db) as [[|t tbls]|]; [done| |done].
  rewrite bind_outcome.
  destruct (collect_tables eng db (t :: tbls) ∅).1; [|done].
  rewrite bind_outcome, cursor_execute_outcome.
  by destruct (view_names eng db).
Qed.

(** The visit raises nothing but [Error], the exception the loop catches. *)
Lemma discover_db_raises db e :
  (discover_db eng db).1 = Raise e → ∃ msg, e = Error msg.
Proof.
  rewrite discover_db_outcome.
  destruct (connect eng (Some db)) as [[]|]; [|intros [= <-]; eauto].
  destruct (base_tables eng db) as [[|t tbls]|]; [done| |intros [= <-]; eauto].
  pose proof (collect_tables_spec db (t :: tbls) ∅) as Hc.
  destruct (collect_tables eng db (t :: tbls) ∅).1.
  - destruct (view_names eng db); [done|intros [= <-]; eauto].
  - destruct Hc as (? & msg & -> & _). intros [= <-]. eauto.
Qed.

(** What an entry holds: it exists only for a database with at least one
    base table, all of whose column queries were answered. *)
Lemma db_entry_Some db st :
  db_entry eng db = Some st →
  ∃ tbls, base_tables eng db = Answer tbls ∧ tbls ≠ []
    ∧ (∀ tbl, tbl ∈ tbls → is_Some (tables st !! tbl))
    ∧ (∀ tbl cds, tables st !! tbl = Some cds →
         tbl ∈ tbls ∧ ∃ cols, table_columns eng db tbl = Answer cols
                              ∧ cds = column_descriptor <$> cols).
Proof.
  unfold db_entry. rewrite discover_db_outcome.
  destruct (connect eng (Some db)) as [[]|]; [|done].
  destruct (base_tables eng db) as [[|t tbls]|]; [done| |done].
  pose proof (collect_tables_spec db (t :: tbls) ∅) as Hc.
  destruct (collect_tables eng db (t :: tbls) ∅).1 as [m|]; [|done].
  destruct (view_names eng db); [|done].
  intros [= <-]. simpl. destruct Hc as (Hdom & Hval & _ & _).
  exists (t :: tbls). repeat split; [done | done | |].
  - destruct (Hval _ _ H) as [He|[? _]]; [by rewrite lookup_empty in He | done].
  - destruct (Hval _ _ H) as [He|[_ ?]]; [by rewrite lookup_empty in He | done].
Qed.

Lemma db_entry_failure db : db_failure eng db → db_entry eng db = None.
Proof.
  unfold db_entry. rewrite discover_db_outcome.
  intros [(msg & H)|[(msg & H)|[(tbls & tbl & msg & Hb & Hin & Hc)|(msg & H)]]].
  - by rewrite H.
  - rewrite H. by destruct (connect eng (Some db)) as [[]|].
  - rewrite Hb. destruct (connect eng (Some db)) as [[]|]; [|done].
    destruct tbls as [|t tbls]; [done|].
    pose proof (collect_tables_spec db (t :: tbls) ∅) as Hs.
    destruct (collect_tables eng db (t :: tbls) ∅).1 as [m|]; [|done].
    destruct Hs as (_ & _ & Hans & _). destruct (Hans tbl Hin) as [cols Hcols].
    congruence.
  - rewrite H. destruct (connect eng (Some db)) as [[]|]; [|done].
    destruct (base_tables eng db) as [[|t tbls]|]; [done| |done].
    by destruct (collect_tables eng db (t :: tbls) ∅).1.
Qed.

Lemma try_except_Error_outcome {A} (m : M (option A)) :
  (try_except_Error m (ret None)).1
  = match m.1 with Raise (Error _) => Return None | o => o end.
Proof. destruct m as [[a|[]] l]; done. Qed.

(** The loop never raises, and the map it returns holds, for a database
    of the list that is not excluded, its entry when there is one, and is
    unchanged elsewhere. *)
Lemma discover_loop_spec dbs acc :
  ∃ m, (discover_loop eng dbs acc).1 = Return m
    ∧ ∀ db, m !! db =
        if bool_decide (db ∈ dbs ∧ db ∉ excluded_dbs)
        then match db_entry eng db with Some st => Some st | None => acc !! db end
        else acc !! db.
Proof.
  revert acc. induction dbs as [|d rest IH]; intros acc; cbn [discover_loop].
  - exists acc. split; [done|]. intros db. rewrite bool_decide_eq_false_2; [done|].
    intros [H _]. by apply not_elem_of_nil in H.
  - destruct (decide (d ∈ excluded_dbs)) as [Hex|Hex].
    + destruct (IH acc) as (m & Hm & Hl). exists m. split; [done|].
      intros db. rewrite Hl.
      rewrite (bool_decide_ext (db ∈ d :: rest ∧ db ∉ excluded_dbs)
                 (db ∈ rest ∧ db ∉ excluded_dbs)); [done|].
      rewrite elem_of_cons. split; [|tauto].
      intros [[->|?] ?]; [done|by split].
    + rewrite bind_outcome, try_except_Error_outcome.
      pose proof (discover_db_raises d) as Hr.
      set (acc' := match db_entry eng d with Some st => <[d:=st]> acc | None => acc end).
      destruct (IH acc') as (m & Hm & Hl). exists m. split.
      { rewrite <- Hm. unfold acc', db_entry.
        destruct (discover_db eng d).1 as [[st|]|e]; [done..|].
        by destruct (Hr e eq_refl) as [msg ->]. }
      intros db. rewrite Hl. subst acc'.
      destruct (decide (db = d)) as [->|Hne].
      * rewrite (bool_decide_eq_true_2 (d ∈ d :: rest ∧ _)) by (split; [left|done]).
        destruct (db_entry eng d) as [st|].
        -- rewrite lookup_insert_eq. by destruct (bool_decide _).
        -- by destruct (bool_decide _).
      * rewrite (bool_decide_ext (db ∈ d :: rest ∧ db ∉ excluded_dbs)
                   (db ∈ rest ∧ db ∉ excluded_dbs))
          by (rewrite elem_of_cons; tauto).
        destruct (db_entry eng d) as [st|]; [|done].
        by rewrite lookup_insert_ne.
Qed.

(** A discovery that returns has listed the databases, and its result is
    the entry of each listed database that is not excluded. *)
Lemma get_mysql_schema_lookup schema events :
  get_mysql_schema eng = (Return schema, events) →
  ∃ dbs, show_databases eng = Answer dbs
    ∧ ∀ db, schema !! db = if bool_decide (db ∈ dbs ∧ db ∉ excluded_dbs)
                           then db_entry eng db else None.
Proof.
  intros H. apply (f_equal fst) in H. simpl in H. revert H.
  unfold get_mysql_schema.
  rewrite bind_outcome, create_connection_outcome.
  destruct (connect eng None) as [[]|]; [|done].
  rewrite bind_outcome, cursor_execute_outcome.
  destruct (show_databases eng) as [dbs|]; [|done].
  rewrite bind_outcome.
  destruct (discover_loop_spec dbs ∅) as (m & -> & Hl).
  rewrite bind_outcome. simpl. intros [= <-].
  exists dbs. split; [done|]. intros db. rewrite Hl, lookup_empty.
  by destruct (bool_decide _), (db_entry eng db).
Qed.

(** Once the first connection and the listing of the databases succeed,
    discovery returns. *)
Lemma get_mysql_schema_returns dbs :
  connect eng None = Answer () → show_databases eng = Answer dbs →
  ∃ schema events, get_mysql_schema eng = (Return schema, events).
Proof.
  intros Hc Hs.
  destruct (get_mysql_schema eng) as [o events] eqn:E.
  assert (o = (get_mysql_schema eng).1) as Ho by by rewrite E.
  revert Ho. unfold get_mysql_schema.
  rewrite bind_outcome, create_connection_outcome, Hc.
  rewrite bind_outcome, cursor_execute_outcome, Hs.
  rewrite bind_outcome.
  destruct (discover_loop_spec dbs ∅) as (m & -> & Hl).
  rewrite bind_outcome. simpl. intros ->. eauto.
Qed.

End Discovery.

(** C3, as the code has it.  A discovery that returns never lists an
    excluded system database, and the descriptors of a listed table are
    those of the rows the engine answered to its column query, one per
    row: the table has a descriptor as soon as the engine answers at least
    one row, which the code does not check. *)
Theorem C3_discovery_excludes_system (eng : Engine) (schema : gmap pystr DbStructure)
    (events : list Event) :
  get_mysql_schema eng = (Return schema, events) →
  (∀ db, db ∈ excluded_dbs → schema !! db = None)
  ∧ schema !! str "information_schema" = None
  ∧ schema !! str "performance_schema" = None
  ∧ schema !! str "mysql" = None
  ∧ schema !! str "sys" = None
  ∧ (∀ db st tbl cds, schema !! db = Some st → tables st !! tbl = Some cds →
       ∃ cols, table_columns eng db tbl = Answer cols
               ∧ cds = column_descriptor <$> cols ∧ length cds = length cols)
  ∧ ((∀ db tbl, table_columns eng db tbl ≠ Answer []) →
     ∀ db st tbl cds, schema !! db = Some st → tables st !! tbl = Some cds → cds ≠ []).
Proof.
  intros H. destruct (get_mysql_schema_lookup eng _ _ H) as (dbs & Hdbs & Hl).
  assert (∀ db, db ∈ excluded_dbs → schema !! db = None) as Hex.
  { intros db Hdb. rewrite Hl. rewrite bool_decide_eq_false_2; [done|]. tauto. }
  assert (∀ db st tbl cds, schema !! db = Some st → tables st !! tbl = Some cds →
            ∃ cols, table_columns eng db tbl = Answer cols
                    ∧ cds = column_descriptor <$> cols ∧ length cds = length cols) as Hcols.
  { intros db st tbl cds Hdb Htbl. rewrite Hl in Hdb.
    destruct (bool_decide _); [|done].
    destruct (db_entry_Some eng db st Hdb) as (tbls & _ & _ & _ & Hval).
    destruct (Hval tbl cds Htbl) as (_ & cols & Hc & ->).
    exists cols. by rewrite length_fmap. }
  split; [done|].
  split; [apply Hex; set_solver|]. split; [apply Hex; set_solver|].
  split; [apply Hex; set_solver|]. split; [apply Hex; set_solver|].
  split; [done|].
  intros Hne db st tbl cds Hdb Htbl ->.
  destruct (Hcols db st tbl [] Hdb Htbl) as (cols & Hc & Heq & _).
  destruct cols; [by apply (Hne db tbl)|done].
Qed.

Lemma demo_discovery :
  get_mysql_schema demo_engine = (Return demo_schema, (get_mysql_schema demo_engine).2).
Proof. vm_compute. reflexivity. Qed.

Lemma C3_discovery_excludes_system_witness :
  demo_schema !! str "mysql" = None
  ∧ ∃ cols, table_columns demo_engine (str "cricbuzz") (str "players") = Answer cols
            ∧ column_descriptor <$> players_columns = column_descriptor <$> cols
            ∧ length (column_descriptor <$> players_columns) = length cols.
Proof.
  destruct (C3_discovery_excludes_system demo_engine demo_schema _ demo_discovery)
    as (_ & _ & _ & Hmysql & _ & Hcols & _).
  split; [exact Hmysql|].
  apply (Hcols (str "cricbuzz") cricbuzz_structure (str "players")); vm_compute; reflexivity.
Defined.

(** C3 as stated fails: a base table for which the column query answers
    no row (it was dropped after the listing, or its columns are not
    visible to the account) is listed with an empty descriptor list. *)
Lemma C3_counterexample :
  (get_mysql_schema demo_engine).1 = Return demo_schema
  ∧ table_columns demo_engine (str "staging") (str "tmp_import") = Answer []
  ∧ ∃ st, demo_schema !! str "staging" = Some st
          ∧ tables st !! str "tmp_import" = Some [].
Proof.
  split; [by rewrite demo_discovery|]. split; [reflexivity|].
  eexists. split; vm_compute; reflexivity.
Qed.

(** C8. When the first connection and the listing of the databases
    succeed, discovery returns whatever happens to a single database: one
    whose connection is refused, or one of whose statements the engine
    refuses, is left out of the result, and every other listed database
    that is not excluded has the entry it has on its own. *)
Theorem C8_db_failure_swallowed (eng : Engine) (dbs : list pystr) :
  connect eng None = Answer () →
  show_databases eng = Answer dbs →
  ∃ schema events,
    get_mysql_schema eng = (Return schema, events)
    ∧ (∀ db, db_failure eng db → schema !! db = None)
    ∧ (∀ db, db ∈ dbs → db ∉ excluded_dbs → schema !! db = db_entry eng db).
Proof.
  intros Hc Hs.
  destruct (get_mysql_schema_returns eng dbs Hc Hs) as (schema & events & H).
  exists schema, events. split; [done|].
  destruct (get_mysql_schema_lookup eng _ _ H) as (dbs' & Hdbs & Hl).
  assert (dbs' = dbs) as -> by congruence.
  split.
  - intros db Hf. rewrite Hl. rewrite (db_entry_failure eng db Hf).
    by destruct (bool_decide _).
  - intros db Hin Hex. rewrite Hl. by rewrite bool_decide_eq_true_2.
Qed.

Lemma C8_db_failure_swallowed_witness :
  ∃ schema events,
    get_mysql_schema demo_engine = (Return schema, events)
    ∧ schema !! str "locked" = None
    ∧ is_Some (schema !! str "cricbuzz").
Proof.
  destruct (C8_db_failure_swallowed demo_engine _ eq_refl eq_refl)
    as (schema & events & H & Hfail & Hother).
  exists schema, events. split; [exact H|]. split.
  - apply Hfail. left. eexists. reflexivity.
  - rewrite Hother.
    + vm_compute. eauto.
    + simpl. right. left.
    + apply (bool_decide_unpack (str "cricbuzz" ∉ excluded_dbs)). vm_compute. exact I.
Defined.

Lemma db_entry_no_base_table (eng : Engine) db :
  base_tables eng db = Answer [] → db_entry eng db = None.
Proof.
  intros H. unfold db_entry. rewrite discover_db_outcome, H.
  by destruct (connect eng (Some db)) as [[]|].
Qed.

(** C9. A database for which the listing of base tables answers no row
    is left out of the result, whatever its views are; so every database
    of the result has at least one table entry. *)
Theorem C9_no_base_table_omitted (eng : Engine) (schema : gmap pystr DbStructure)
    (events : list Event) :
  get_mysql_schema eng = (Return schema, events) →
  (∀ db, base_tables eng db = Answer [] → schema !! db = None)
  ∧ (∀ db st, schema !! db = Some st → ∃ tbl cds, tables st !! tbl = Some cds).
Proof.
  intros H. destruct (get_mysql_schema_lookup eng _ _ H) as (dbs & Hdbs & Hl).
  split.
  - intros db Hb. rewrite Hl, (db_entry_no_base_table eng db Hb).
    by destruct (bool_decide _).
  - intros db st Hdb. rewrite Hl in Hdb. destruct (bool_decide _); [|done].
    destruct (db_entry_Some eng db st Hdb) as (tbls & _ & Hne & Hdom & _).
    destruct tbls as [|tbl tbls]; [done|].
    destruct (Hdom tbl) as [cds Hcds]; [left|]. eauto.
Qed.

Lemma C9_no_base_table_omitted_witness :
  view_names demo_engine (str "reports") = Answer [str "monthly"]
  ∧ demo_schema !! str "reports" = None
  ∧ ∃ tbl cds, tables cricbuzz_structure !! tbl = Some cds.
Proof.
  destruct (C9_no_base_table_omitted demo_engine demo_schema _ demo_discovery)
    as (Hnone & Hsome).
  split; [reflexivity|]. split.
  - apply Hnone. reflexivity.
  - apply (Hsome (str "cricbuzz")). vm_compute. reflexivity.
Defined.

(** ** The query catalog *)

Lemma catalog_checked :
  forallb (λ q : pystr * pystr, read_only q.2 && (count_markers q.2 =? 0)) queries = true.
Proof. vm_compute. reflexivity. Qed.

Lemma catalog_openings :
  forallb (λ q : pystr * pystr,
             begins_with_keyword q.2 || py_startswith (py_strip q.2) (str "/*")) queries = true.
Proof. vm_compute. reflexivity. Qed.

(** C7, as the code has it.  The catalog has 25 templates.  Each is a
    read-only statement: its text opens with SELECT or WITH or with a block
    comment, after its leading white space and comments its first word is
    SELECT or WITH, SELECT occurs in it, and none of its words begins a
    statement that writes.  None holds a parameter marker, and [run_query]
    hands the text to the engine as it is, as the only statement and with
    no parameter list. *)
Theorem C7_catalog_read_only :
  length queries = 25
  ∧ Forall (λ q : pystr * pystr,
              (begins_with_keyword q.2 = true ∨ py_startswith (py_strip q.2) (str "/*") = true)
              ∧ (first_keyword q.2 = str "SELECT" ∨ first_keyword q.2 = str "WITH")
              ∧ str "SELECT" ∈ sql_words q.2
              ∧ (∀ w, w ∈ sql_words q.2 → w ∉ writing_keywords)
              ∧ count_markers q.2 = 0) queries
  ∧ ∀ (sqlite_read : pystr → Reply DataFrame) (query : pystr),
      statements (run_query sqlite_read query).2 = [query]
      ∧ ∀ sql params, EExecute sql params ∉ (run_query sqlite_read query).2.
Proof.
  split; [reflexivity|]. split.
  - apply Forall_forall. intros q Hq.
    pose proof catalog_checked as Hc. pose proof catalog_openings as Ho.
    rewrite forallb_forall in Hc. specialize (Hc q).
    rewrite forallb_forall in Ho. specialize (Ho q).
    rewrite <- list_elem_of_In in Hc, Ho. specialize (Hc Hq). specialize (Ho Hq).
    apply andb_true_iff in Hc as [Hro Hm]. unfold read_only in Hro.
    apply andb_true_iff in Hro as [Hro Hw]. apply andb_true_iff in Hro as [Hk Hs].
    split; [by apply orb_true_iff in Ho|].
    repeat split.
    + apply orb_true_iff in Hk as [Hk|Hk]; apply bool_decide_eq_true in Hk; auto.
    + by apply bool_decide_eq_true in Hs.
    + intros w Hin. rewrite forallb_forall in Hw.
      apply list_elem_of_In, Hw in Hin. by apply bool_decide_eq_true in Hin.
    + by apply Nat.eqb_eq.
  - intros sqlite_read query. unfold run_query.
    destruct (sqlite_read query); simpl; (split; [done|]);
      intros sql params Hin; repeat (apply elem_of_cons in Hin as [Hin|Hin]; [done|]);
      by apply not_elem_of_nil in Hin.
Qed.

(** C7 as stated fails: the text of Q6 is in the catalog and, trimmed,
    opens with a block comment, not with SELECT or WITH; only five of the
    25 texts open with one of the two keywords. *)
Lemma C7_counterexample :
  Q6_sql ∈ queries.*2
  ∧ py_startswith (py_lower (py_strip Q6_sql)) (str "select") = false
  ∧ py_startswith (py_lower (py_strip Q6_sql)) (str "with") = false
  ∧ py_startswith (py_strip Q6_sql) (str "/*") = true
  ∧ length (List.filter (λ q : pystr * pystr, begins_with_keyword q.2) queries) = 5.
Proof.
  split; [by apply (list_elem_of_lookup_2 _ 5)|].
  repeat split; vm_compute; reflexivity.
Qed.

(** The first five templates begin with SELECT once trimmed; from the
    sixth on a block comment comes first, so the prefix test that
    [run_select] applies would not let them through. *)
Example catalog_leading_comment :
  py_startswith (py_strip Q1_sql) (str "SELECT") = true
  ∧ py_startswith (py_strip Q6_sql) (str "/*") = true
  ∧ py_startswith (py_lower (py_strip Q6_sql)) (str "select") = false
  ∧ first_keyword Q6_sql = str "SELECT"
  ∧ first_keyword Q11_sql = str "WITH".
Proof. repeat split; vm_compute; reflexivity. Qed.

(** ** The standard deviation of Q19 and Q23 *)

(** *** Integers in binary64

    An integer below 2^53 in size is a binary64 value, and sums,
    squares and quotients of such integers that stay below 2^53 are
    computed without rounding. *)

Lemma iter_pos_nat {A} (f : A → A) p x :
  SpecFloat.iter_pos f p x = Nat.iter (Pos.to_nat p) f x.
Proof.
  revert x. induction p as [p IH|p IH|]; intros x; cbn [SpecFloat.iter_pos].
  - rewrite !IH, Pos2Nat.inj_xI.
    replace (S (2 * Pos.to_nat p)) with (Pos.to_nat p + S (Pos.to_nat p))%nat by lia.
    by rewrite Nat.iter_add, Nat.iter_succ_r.
  - rewrite !IH, Pos2Nat.inj_xO.
    replace (2 * Pos.to_nat p)%nat with (Pos.to_nat p + Pos.to_nat p)%nat by lia.
    by rewrite Nat.iter_add.
  - done.
Qed.

Lemma pos_iter_nat {A} (f : A → A) p x : Pos.iter f x p = Nat.iter (Pos.to_nat p) f x.
Proof. apply Pos2Nat.inj_iter. Qed.

Lemma shift_pos_nat_add n m p : shift_pos_nat (n + m) p = shift_pos_nat n (shift_pos_nat m p).
Proof. apply Nat.iter_add. Qed.

Lemma shift_pos_nat_Z n p : Z.pos (shift_pos_nat n p) = (Z.pos p * 2 ^ Z.of_nat n)%Z.
Proof.
  induction n as [|n IH]; [simpl; lia|].
  change (shift_pos_nat (S n) p) with (xO (shift_pos_nat n p)).
  rewrite Pos2Z.inj_xO, IH, Nat2Z.inj_succ, Z.pow_succ_r by lia. lia.
Qed.

Lemma shift_pos_nat_digits n p :
  Pos.to_nat (digits2_pos (shift_pos_nat n p)) = (Pos.to_nat (digits2_pos p) + n)%nat.
Proof.
  induction n as [|n IH]; [simpl; lia|].
  change (shift_pos_nat (S n) p) with (xO (shift_pos_nat n p)).
  simpl. rewrite Pos2Nat.inj_succ, IH. lia.
Qed.

Lemma digits2_pos_bounds p :
  (2 ^ (Z.of_nat (Pos.to_nat (digits2_pos p)) - 1) ≤ Z.pos p < 2 ^ Z.of_nat (Pos.to_nat (digits2_pos p)))%Z.
Proof.
  induction p as [p IH|p IH|]; simpl digits2_pos.
  - rewrite Pos2Nat.inj_succ, Nat2Z.inj_succ.
    replace (Z.succ (Z.of_nat (Pos.to_nat (digits2_pos p))) - 1)%Z
      with (Z.succ (Z.of_nat (Pos.to_nat (digits2_pos p)) - 1)) by lia.
    rewrite !Z.pow_succ_r by lia. lia.
  - rewrite Pos2Nat.inj_succ, Nat2Z.inj_succ.
    replace (Z.succ (Z.of_nat (Pos.to_nat (digits2_pos p))) - 1)%Z
      with (Z.succ (Z.of_nat (Pos.to_nat (digits2_pos p)) - 1)) by lia.
    rewrite !Z.pow_succ_r by lia. lia.
  - simpl. lia.
Qed.

(** An integer below [2 ^ k] has at most [k] bits. *)
Lemma digits2_pos_le p (k : nat) :
  (Z.pos p < 2 ^ Z.of_nat k)%Z → Pos.to_nat (digits2_pos p) ≤ k.
Proof.
  intros H. pose proof (digits2_pos_bounds p) as [Hlo _].
  destruct (decide (Pos.to_nat (digits2_pos p) ≤ k)) as [|Hn]; [done|].
  exfalso. assert (2 ^ Z.of_nat k ≤ 2 ^ (Z.of_nat (Pos.to_nat (digits2_pos p)) - 1))%Z.
  { apply Z.pow_le_mono_r; lia. }
  lia.
Qed.

Lemma shr_zero_bits n p :
  Nat.iter n shr_1 {| shr_m := Z.pos (shift_pos_nat n p); shr_r := false; shr_s := false |}
  = {| shr_m := Z.pos p; shr_r := false; shr_s := false |}.
Proof.
  induction n as [|n IH]; [done|].
  rewrite Nat.iter_succ_r.
  change (shift_pos_nat (S n) p) with (xO (shift_pos_nat n p)). simpl shr_1. apply IH.
Qed.

(** Rounding a 53-bit mantissa followed by zero bits is exact. *)
Lemma binary_round_aux_exact s m e (j : nat) :
  Pos.to_nat (digits2_pos m) = 53 → (-1074 ≤ e ≤ 971)%Z →
  binary_round_aux prec emax s (Z.pos (shift_pos_nat j m)) (e - Z.of_nat j) loc_Exact
  = S754_finite s m e.
Proof.
  intros Hd He. unfold binary_round_aux, shr_fexp.
  assert (Z.pos (digits2_pos (shift_pos_nat j m)) = 53 + Z.of_nat j)%Z as Hdj.
  { pose proof (shift_pos_nat_digits j m). lia. }
  assert (Z.pos (digits2_pos m) = 53)%Z as Hdm by lia.
  cbn [Zdigits2 shr_record_of_loc]. rewrite Hdj.
  replace (fexp prec emax (53 + Z.of_nat j + (e - Z.of_nat j)) - (e - Z.of_nat j))%Z
    with (Z.of_nat j) by (unfold fexp, SpecFloat.emin, prec, emax; lia).
  assert (shr {| shr_m := Z.pos (shift_pos_nat j m); shr_r := false; shr_s := false |}
            (e - Z.of_nat j) (Z.of_nat j)
          = ({| shr_m := Z.pos m; shr_r := false; shr_s := false |}, e)) as ->.
  { destruct j as [|j].
    - simpl. f_equal. lia.
    - change (Z.of_nat (S j)) with (Z.pos (Pos.of_succ_nat j)). unfold shr.
      rewrite iter_pos_nat, SuccNat2Pos.id_succ, shr_zero_bits.
      f_equal. lia. }
  cbn [shr_m loc_of_shr_record round_nearest_even Zdigits2 shr_record_of_loc].
  rewrite Hdm.
  replace (fexp prec emax (53 + e) - e)%Z with 0%Z
    by (unfold fexp, SpecFloat.emin, prec, emax; lia).
  cbn [shr shr_m].
  replace (e <=? emax - prec)%Z with true; [done|].
  symmetry. apply Z.leb_le. unfold emax, prec. lia.
Qed.

Lemma canon_digits v :
  Pos.to_nat (digits2_pos v) ≤ 53 →
  Pos.to_nat (digits2_pos (shift_pos_nat (53 - Pos.to_nat (digits2_pos v)) v)) = 53.
Proof. intros H. rewrite shift_pos_nat_digits. lia. Qed.

(** Rounding an integer of at most 53 bits, given with enough zero bits
    appended, is exact: the result is its canonical form. *)
Lemma binary_round_aux_canon s v (j : nat) :
  Pos.to_nat (digits2_pos v) ≤ 53 → 53 - Pos.to_nat (digits2_pos v) ≤ j →
  binary_round_aux prec emax s (Z.pos (shift_pos_nat j v)) (- Z.of_nat j) loc_Exact = canon s v.
Proof.
  intros Hd Hj. unfold canon.
  set (d := Pos.to_nat (digits2_pos v)) in *.
  assert (0 < d) by (unfold d; lia).
  replace j with ((j - (53 - d)) + (53 - d))%nat at 1 by lia.
  rewrite shift_pos_nat_add.
  replace (- Z.of_nat j)%Z with (Z.of_nat d - 53 - Z.of_nat (j - (53 - d)))%Z by lia.
  apply binary_round_aux_exact; [by apply canon_digits|lia].
Qed.

Lemma binary_round_canon s v (j : nat) :
  Pos.to_nat (digits2_pos v) ≤ 53 →
  binary_round prec emax s (shift_pos_nat j v) (- Z.of_nat j) = canon s v.
Proof.
  intros Hd. unfold binary_round, shl_align.
  set (d := Pos.to_nat (digits2_pos v)) in *.
  assert (0 < d) by (unfold d; lia).
  assert (Z.pos (digits2_pos (shift_pos_nat j v)) = Z.of_nat d + Z.of_nat j)%Z as ->.
  { pose proof (shift_pos_nat_digits j v). lia. }
  replace (fexp prec emax (Z.of_nat d + Z.of_nat j + - Z.of_nat j))
    with (Z.of_nat d - 53)%Z by (unfold fexp, SpecFloat.emin, prec, emax; lia).
  destruct (Z.of_nat d - 53 - - Z.of_nat j)%Z as [|q|q] eqn:Hq.
  - apply binary_round_aux_canon; [done|fold d; lia].
  - apply binary_round_aux_canon; [done|fold d; lia].
  - rewrite pos_iter_nat. fold (shift_pos_nat (Pos.to_nat q) (shift_pos_nat j v)).
    rewrite <- shift_pos_nat_add.
    replace (Z.of_nat d - 53)%Z with (- Z.of_nat (Pos.to_nat q + j))%Z by lia.
    apply binary_round_aux_canon; [done|fold d; lia].
Qed.

Lemma small_digits v : small (Z.pos v) → Pos.to_nat (digits2_pos v) ≤ 53.
Proof. intros H. apply digits2_pos_le. unfold small in H. simpl in *. lia. Qed.

Lemma SF_of_Z_pos v : small (Z.pos v) → SF_of_Z (Z.pos v) = canon false v.
Proof. intros H. apply (binary_round_canon false v 0), small_digits, H. Qed.

Lemma SF_of_Z_neg v : small (Z.neg v) → SF_of_Z (Z.neg v) = canon true v.
Proof. intros H. apply (binary_round_canon true v 0), small_digits, H. Qed.

Lemma canon_valid s v : Pos.to_nat (digits2_pos v) ≤ 53 → valid_binary (canon s v) = true.
Proof.
  intros Hd. unfold canon. cbn [SpecFloat.valid_binary]. unfold bounded, canonical_mantissa.
  pose proof (canon_digits v Hd) as Hc.
  assert (Z.pos (digits2_pos (shift_pos_nat (53 - Pos.to_nat (digits2_pos v)) v)) = 53)%Z as ->
    by lia.
  apply andb_true_intro. split.
  - apply Z.eqb_eq. unfold fexp, SpecFloat.emin, prec, emax. lia.
  - apply Z.leb_le. unfold prec, emax. lia.
Qed.

Lemma SF_of_Z_valid z : small z → valid_binary (SF_of_Z z) = true.
Proof.
  destruct z as [|v|v]; intros H; [done|..].
  - rewrite SF_of_Z_pos by done. by apply canon_valid, small_digits.
  - rewrite SF_of_Z_neg by done. by apply canon_valid, small_digits.
Qed.

Lemma shl_align_fst m e e' :
  (e' ≤ e)%Z → (shl_align m e e').1 = shift_pos_nat (Z.to_nat (e - e')) m.
Proof.
  intros H. unfold shl_align. destruct (e' - e)%Z as [|q|q] eqn:Hq; simpl.
  - by replace (e - e')%Z with 0%Z by lia.
  - lia.
  - rewrite pos_iter_nat. unfold shift_pos_nat. f_equal. lia.
Qed.

Lemma shift_pos_nat_plus j a b :
  (shift_pos_nat j a + shift_pos_nat j b)%positive = shift_pos_nat j (a + b).
Proof. apply Pos2Z.inj. rewrite Pos2Z.inj_add, !shift_pos_nat_Z, Pos2Z.inj_add. lia. Qed.

Lemma shift_pos_nat_mul i j a b :
  (shift_pos_nat i a * shift_pos_nat j b)%positive = shift_pos_nat (i + j) (a * b).
Proof.
  apply Pos2Z.inj.
  rewrite Pos2Z.inj_mul, !shift_pos_nat_Z, Pos2Z.inj_mul, Nat2Z.inj_add, Z.pow_add_r by lia.
  lia.
Qed.

(** Digits of a product. *)
Lemma digits2_pos_mul a b :
  Pos.to_nat (digits2_pos a) + Pos.to_nat (digits2_pos b) - 1
    ≤ Pos.to_nat (digits2_pos (a * b))
  ∧ Pos.to_nat (digits2_pos (a * b))
    ≤ Pos.to_nat (digits2_pos a) + Pos.to_nat (digits2_pos b).
Proof.
  pose proof (digits2_pos_bounds a) as [Ha1 Ha2].
  pose proof (digits2_pos_bounds b) as [Hb1 Hb2].
  pose proof (digits2_pos_bounds (a * b)) as [Hc1 Hc2].
  set (da := Pos.to_nat (digits2_pos a)) in *.
  set (db := Pos.to_nat (digits2_pos b)) in *.
  set (dc := Pos.to_nat (digits2_pos (a * b))) in *.
  assert (0 < da ∧ 0 < db ∧ 0 < dc) as (? & ? & ?) by (unfold da, db, dc; lia).
  rewrite Pos2Z.inj_mul in Hc1, Hc2. split.
  - destruct (decide (da + db - 1 ≤ dc)) as [|Hn]; [done|]. exfalso.
    assert (2 ^ Z.of_nat dc ≤ 2 ^ ((Z.of_nat da - 1) + (Z.of_nat db - 1)))%Z as Hle
      by (apply Z.pow_le_mono_r; lia).
    rewrite Z.pow_add_r in Hle by lia. nia.
  - destruct (decide (dc ≤ da + db)) as [|Hn]; [done|]. exfalso.
    assert (2 ^ (Z.of_nat da + Z.of_nat db) ≤ 2 ^ (Z.of_nat dc - 1))%Z as Hle
      by (apply Z.pow_le_mono_r; lia).
    rewrite Z.pow_add_r in Hle by lia. nia.
Qed.

Lemma SFadd_canon s a b :
  Pos.to_nat (digits2_pos (a + b)) ≤ 53 →
  SF64add (canon s a) (canon s b) = canon s (a + b).
Proof.
  intros Hc.
  assert (Pos.to_nat (digits2_pos a) ≤ 53 ∧ Pos.to_nat (digits2_pos b) ≤ 53) as [Ha Hb].
  { pose proof (digits2_pos_bounds (a + b)) as [_ Hab].
    assert (2 ^ Z.of_nat (Pos.to_nat (digits2_pos (a + b))) ≤ 2 ^ Z.of_nat 53)%Z
      by (apply Z.pow_le_mono_r; lia).
    split; apply digits2_pos_le; lia. }
  unfold SF64add, canon at 1 2, SFadd.
  set (da := Pos.to_nat (digits2_pos a)) in *.
  set (db := Pos.to_nat (digits2_pos b)) in *.
  assert (0 < da ∧ 0 < db) as [? ?] by (unfold da, db; lia).
  cbv zeta.
  rewrite !shl_align_fst by lia. fold (shift_pos_nat).
  rewrite <- !shift_pos_nat_add.
  set (j := 53 - da `min` db).
  replace (Z.to_nat (Z.of_nat da - 53 - (Z.of_nat da - 53) `min` (Z.of_nat db - 53)) + (53 - da))
    with j by lia.
  replace (Z.to_nat (Z.of_nat db - 53 - (Z.of_nat da - 53) `min` (Z.of_nat db - 53)) + (53 - db))
    with j by lia.
  replace ((Z.of_nat da - 53) `min` (Z.of_nat db - 53))%Z with (- Z.of_nat j)%Z by lia.
  destruct s; cbn [cond_Zopp].
  - change (- Z.pos (shift_pos_nat j a) + - Z.pos (shift_pos_nat j b))%Z
      with (Z.neg (shift_pos_nat j a + shift_pos_nat j b)).
    rewrite shift_pos_nat_plus. by apply binary_round_canon.
  - change (Z.pos (shift_pos_nat j a) + Z.pos (shift_pos_nat j b))%Z
      with (Z.pos (shift_pos_nat j a + shift_pos_nat j b)).
    rewrite shift_pos_nat_plus. by apply binary_round_canon.
Qed.

Lemma SFmul_canon sa sb a b :
  Pos.to_nat (digits2_pos (a * b)) ≤ 53 →
  SF64mul (canon sa a) (canon sb b) = canon (xorb sa sb) (a * b).
Proof.
  intros Hc. pose proof (digits2_pos_mul a b) as [Hlo Hhi].
  unfold SF64mul, canon at 1 2, SFmul.
  set (da := Pos.to_nat (digits2_pos a)) in *.
  set (db := Pos.to_nat (digits2_pos b)) in *.
  assert (0 < da ∧ 0 < db) as [? ?] by (unfold da, db; lia).
  cbv zeta. rewrite shift_pos_nat_mul.
  replace (Z.of_nat da - 53 + (Z.of_nat db - 53))%Z
    with (- Z.of_nat (53 - da + (53 - db)))%Z by lia.
  apply binary_round_aux_canon; [done|lia].
Qed.

Lemma div_eucl_exact a b q : (0 < b)%Z → a = (b * q)%Z → Z.div_eucl a b = (q, 0%Z).
Proof.
  intros Hb ->. pose proof (Z.div_eucl_eq (b * q) b) as Heq.
  pose proof (Z.mod_pos_bound (b * q) b Hb) as Hm. unfold Z.modulo in Hm.
  destruct (Z.div_eucl (b * q) b) as [q' r']. simpl in *.
  specialize (Heq ltac:(lia)).
  assert (q' = q) as -> by nia. f_equal. lia.
Qed.

Lemma SFdiv_canon sa sn n r :
  Pos.to_nat (digits2_pos (n * r)) ≤ 53 →
  SF64div (canon sa (n * r)) (canon sn n) = canon (xorb sa sn) r.
Proof.
  intros Hc. pose proof (digits2_pos_mul n r) as [Hlo Hhi].
  set (a := (n * r)%positive) in *.
  assert (Pos.to_nat (digits2_pos n) ≤ 53 ∧ Pos.to_nat (digits2_pos r) ≤ 53) as [Hn Hr].
  { assert (0 < Pos.to_nat (digits2_pos n) ∧ 0 < Pos.to_nat (digits2_pos r)) by lia. lia. }
  unfold SF64div, canon at 1 2, SFdiv, SFdiv_core_binary.
  set (da := Pos.to_nat (digits2_pos a)) in *.
  set (dn := Pos.to_nat (digits2_pos n)) in *.
  set (dr := Pos.to_nat (digits2_pos r)) in *.
  assert (0 < da ∧ 0 < dn ∧ 0 < dr) as (? & ? & ?) by (unfold da, dn, dr; lia).
  cbn [Zdigits2].
  assert (Z.pos (digits2_pos (shift_pos_nat (53 - da) a)) = 53)%Z as ->.
  { pose proof (canon_digits a Hc). fold da in H2. lia. }
  assert (Z.pos (digits2_pos (shift_pos_nat (53 - dn) n)) = 53)%Z as ->.
  { pose proof (canon_digits n Hn). fold dn in H2. lia. }
  cbv zeta.
  replace (fexp prec emax (53 + (Z.of_nat da - 53) - (53 + (Z.of_nat dn - 53))))
    with (Z.of_nat da - Z.of_nat dn - 53)%Z by (unfold fexp, SpecFloat.emin, prec, emax; lia).
  replace ((Z.of_nat da - Z.of_nat dn - 53) `min` (Z.of_nat da - 53 - (Z.of_nat dn - 53)))%Z
    with (Z.of_nat da - Z.of_nat dn - 53)%Z by lia.
  replace (Z.of_nat da - 53 - (Z.of_nat dn - 53) - (Z.of_nat da - Z.of_nat dn - 53))%Z
    with 53%Z by lia.
  rewrite (div_eucl_exact _ _ (Z.pos (shift_pos_nat (53 + dn - da) r))).
  - replace (new_location (Z.pos (shift_pos_nat (53 - dn) n)) 0) with loc_Exact
      by (unfold new_location, new_location_even, new_location_odd; by destruct (Z.even _)).
    replace (Z.of_nat da - Z.of_nat dn - 53)%Z with (- Z.of_nat (53 + dn - da))%Z by lia.
    apply binary_round_aux_canon; [done|fold dr; lia].
  - lia.
  - rewrite Z.shiftl_mul_pow2 by lia. rewrite !shift_pos_nat_Z. unfold a.
    rewrite Pos2Z.inj_mul.
    replace (Z.of_nat (53 + dn - da)) with (Z.of_nat (53 - da) + 53 - Z.of_nat (53 - dn))%Z by lia.
    rewrite Z.pow_sub_r, Z.pow_add_r by lia.
    assert (2 ^ Z.of_nat (53 - dn) | 2 ^ Z.of_nat (53 - da) * 2 ^ 53)%Z as [c Hcq].
    { rewrite <- Z.pow_add_r by lia.
      exists (2 ^ (Z.of_nat (53 - da) + 53 - Z.of_nat (53 - dn)))%Z.
      rewrite <- Z.pow_add_r by lia. f_equal. lia. }
    rewrite Hcq, Z.div_mul by lia. nia.
Qed.

Lemma SFsub_canon_diag s a : SF64sub (canon s a) (canon s a) = S754_zero false.
Proof.
  unfold SF64sub, canon, SFsub. cbv zeta.
  rewrite Z.min_id, !shl_align_fst, Z.sub_diag by lia.
  done.
Qed.

(** *** Integers as binary64 values *)

Lemma SF_of_Z_add a b :
  (0 ≤ a ∧ 0 ≤ b ∨ a ≤ 0 ∧ b ≤ 0)%Z → small (a + b) →
  SF64add (SF_of_Z a) (SF_of_Z b) = SF_of_Z (a + b).
Proof.
  intros Hs Hab.
  assert (small a ∧ small b) as [Ha Hb] by (unfold small in *; lia).
  destruct a as [|a|a], b as [|b|b]; try lia; try done.
  - by rewrite Z.add_0_l, SF_of_Z_pos.
  - by rewrite Z.add_0_l, SF_of_Z_neg.
  - by rewrite Z.add_0_r, SF_of_Z_pos.
  - change (Z.pos a + Z.pos b)%Z with (Z.pos (a + b)) in *.
    rewrite !SF_of_Z_pos by done. by apply SFadd_canon, small_digits.
  - by rewrite Z.add_0_r, SF_of_Z_neg.
  - change (Z.neg a + Z.neg b)%Z with (Z.neg (a + b)) in *.
    rewrite !SF_of_Z_neg by done. by apply SFadd_canon, small_digits.
Qed.

Lemma SF_of_Z_square r :
  small (r * r) → SF64mul (SF_of_Z r) (SF_of_Z r) = SF_of_Z (r * r).
Proof.
  intros Hrr. assert (small r) as Hr by (unfold small in *; nia).
  destruct r as [|r|r]; [done|..].
  - change (Z.pos r * Z.pos r)%Z with (Z.pos (r * r)) in *.
    rewrite !SF_of_Z_pos by done. by apply (SFmul_canon false false), small_digits.
  - change (Z.neg r * Z.neg r)%Z with (Z.pos (r * r)) in *.
    rewrite SF_of_Z_neg, SF_of_Z_pos by done. by apply (SFmul_canon true true), small_digits.
Qed.

Lemma SF_of_Z_div n r :
  (0 < n)%Z → small n → small (n * r) → SF64div (SF_of_Z (n * r)) (SF_of_Z n) = SF_of_Z r.
Proof.
  intros Hn Hsn Hnr. assert (small r) as Hr by (unfold small in *; nia).
  destruct n as [|n|n]; try lia. destruct r as [|r|r].
  - rewrite Z.mul_0_r, SF_of_Z_pos by done. done.
  - change (Z.pos n * Z.pos r)%Z with (Z.pos (n * r)) in *.
    rewrite !SF_of_Z_pos by done. by apply (SFdiv_canon false false), small_digits.
  - change (Z.pos n * Z.neg r)%Z with (Z.neg (n * r)) in *.
    rewrite !SF_of_Z_neg, SF_of_Z_pos by done. by apply (SFdiv_canon true false), small_digits.
Qed.

Lemma SF_of_Z_sub_diag z : small z → SF64sub (SF_of_Z z) (SF_of_Z z) = S754_zero false.
Proof.
  intros Hz. destruct z as [|v|v]; [done|..].
  - rewrite SF_of_Z_pos by done. apply SFsub_canon_diag.
  - rewrite SF_of_Z_neg by done. apply SFsub_canon_diag.
Qed.

(** *** The same on primitive floats *)

Lemma sql_real_spec z : small z → Prim2SF (sql_real z) = SF_of_Z z.
Proof. intros H. by apply Prim2SF_SF2Prim, SF_of_Z_valid. Qed.

Lemma sql_real_add a b :
  (0 ≤ a ∧ 0 ≤ b ∨ a ≤ 0 ∧ b ≤ 0)%Z → small (a + b) →
  (sql_real a + sql_real b)%float = sql_real (a + b).
Proof.
  intros Hs Hab. assert (small a ∧ small b) as [Ha Hb] by (unfold small in *; lia).
  apply Prim2SF_inj. rewrite add_spec, !sql_real_spec by done. by apply SF_of_Z_add.
Qed.

Lemma sql_real_square r :
  small (r * r) → (sql_real r * sql_real r)%float = sql_real (r * r).
Proof.
  intros Hrr. assert (small r) as Hr by (unfold small in *; nia).
  apply Prim2SF_inj. rewrite mul_spec, !sql_real_spec by done. by apply SF_of_Z_square.
Qed.

Lemma sql_real_div n r :
  (0 < n)%Z → small n → small (n * r) → (sql_real (n * r) / sql_real n)%float = sql_real r.
Proof.
  intros Hn Hsn Hnr. assert (small r) as Hr by (unfold small in *; nia).
  apply Prim2SF_inj. rewrite div_spec, !sql_real_spec by done. by apply SF_of_Z_div.
Qed.

Lemma sql_real_sub_diag z : small z → (sql_real z - sql_real z)%float = 0%float.
Proof.
  intros Hz. apply Prim2SF_inj. rewrite sub_spec, !sql_real_spec by done.
  by rewrite SF_of_Z_sub_diag.
Qed.

Lemma SFeqb_canon s v : SFeqb (canon s v) (canon s v) = true.
Proof.
  unfold SFeqb, canon, SFcompare. cbv zeta.
  destruct s; rewrite Z.compare_refl, Pos.compare_cont_refl; done.
Qed.

Lemma sql_real_not_nan z : small z → PrimFloat.is_nan (sql_real z) = false.
Proof.
  intros Hz. unfold PrimFloat.is_nan. rewrite FloatAxioms.eqb_spec, sql_real_spec by done.
  destruct z as [|v|v]; [done|..].
  - rewrite SF_of_Z_pos by done. by rewrite SFeqb_canon.
  - rewrite SF_of_Z_neg by done. by rewrite SFeqb_canon.
Qed.

(** The sum of [n] copies of [r], added one by one, is exact. *)
Lemma foldl_add_replicate (k n : nat) (r : Z) :
  small (Z.of_nat (k + n) * r) →
  foldl PrimFloat.add (sql_real (Z.of_nat k * r)) (replicate n (sql_real r))
  = sql_real (Z.of_nat (k + n) * r).
Proof.
  revert k. induction n as [|n IH]; intros k Hs.
  - by rewrite Nat.add_0_r.
  - cbn [replicate foldl]. rewrite sql_real_add.
    + replace (Z.of_nat k * r + r)%Z with (Z.of_nat (S k) * r)%Z by lia.
      rewrite IH; [f_equal; lia|]. by replace (S k + n) with (k + S n) by lia.
    + nia.
    + unfold small in *. nia.
Qed.

(** *** ROUND, sqrt and the variance *)

(** The nearest count of hundredths is a rounding as ROUND is assumed to
    be. *)
Lemma nearest_hundredths_spec : rounds_to_hundredths nearest_hundredths.
Proof.
  intros x k. unfold clear_of_ties, nearest_hundredths.
  destruct (Prim2SF x) as [s|s| |s m e]; try done.
  - by intros ->%Z.eqb_eq.
  - intros [He H]%andb_true_iff. rewrite He. apply Z.ltb_lt in He. apply Z.leb_le in H.
    assert (0 < 2 ^ (- e))%Z as Hs by (apply Z.pow_pos_nonneg; lia).
    set (S := (2 ^ (- e))%Z) in *. set (M := Z.pos m) in *.
    assert (0 < M)%Z by (unfold M; lia).
    assert (∀ k', (2 * 10 ^ 9 * Z.abs (100 * M - k' * S) + 200 * (M + S) ≤ 10 ^ 9 * S)%Z →
                  ((200 * M + S) / (2 * S) = k')%Z) as Hdiv.
    { intros k' Hk. symmetry. apply (Z.div_unique _ _ _ (200 * M + S - 2 * S * k')); lia. }
    destruct s.
    + rewrite (Hdiv (- k)%Z) by done. lia.
    + by apply Hdiv.
Qed.

(** The root of a negative argument is NULL. *)
Lemma sql_sqrt_negative v : PrimFloat.ltb v 0%float = true → sql_sqrt (Some v) = None.
Proof.
  intros Hv. rewrite ltb_spec in Hv.
  unfold sql_sqrt, sql_result. cbn.
  unfold PrimFloat.is_nan. rewrite FloatAxioms.eqb_spec, sqrt_spec.
  change (Prim2SF 0%float) with (S754_zero false) in Hv.
  by destruct (Prim2SF v) as [s|[]| |[] m e].
Qed.

(** Equal values whose squares add up below 2^53: the mean of the squares
    is the square of the mean, bit for bit. *)
Lemma variance_arg_identical (n : nat) (r : Z) :
  1 ≤ n → small (Z.of_nat n) → small (Z.of_nat n * (r * r)) →
  variance_arg (replicate n (sql_real r)) = Some 0%float.
Proof.
  intros Hn Hsn Hs.
  assert (small r ∧ small (r * r) ∧ small (Z.of_nat n * r)) as (Hr & Hrr & Hnr)
    by (unfold small in *; nia).
  assert (∀ z, small z → small (Z.of_nat n * z) →
               sql_avg (replicate n (sql_real z)) = Some (sql_real z)) as Havg.
  { intros z Hz Hnz. unfold sql_avg. destruct n as [|n']; [lia|].
    change (replicate (S n') (sql_real z)) with (sql_real z :: replicate n' (sql_real z)).
    cbv iota beta. rewrite length_cons, length_replicate.
    change (sql_real z :: replicate n' (sql_real z)) with (replicate (S n') (sql_real z)).
    change 0%float with (sql_real (Z.of_nat 0 * z)).
    rewrite foldl_add_replicate by done. rewrite Nat.add_0_l.
    rewrite sql_real_div by (done || lia).
    unfold sql_result. by rewrite sql_real_not_nan. }
  unfold variance_arg. rewrite fmap_replicate, sql_real_square by done.
  rewrite !Havg by done. cbn. unfold sql_result.
  rewrite sql_real_square, sql_real_not_nan by done. cbn.
  unfold sql_result. by rewrite sql_real_sub_diag.
Qed.

Lemma non_null_replicate n r : non_null (replicate n (Some r)) = replicate n (sql_real r).
Proof.
  unfold non_null. induction n as [|n IH]; [done|].
  cbn [replicate omap list_omap fmap option_fmap option_map]. by rewrite IH.
Qed.

Lemma non_null_nulls n : non_null (replicate n None) = [].
Proof. unfold non_null. induction n as [|n IH]; [done|]. exact IH. Qed.

Lemma rounded_zero (sql_round2 : float → Z) :
  rounds_to_hundredths sql_round2 → sql_round2 <$> sql_sqrt (Some 0%float) = Some 0%Z.
Proof.
  intros Hround. change (sql_sqrt (Some 0%float)) with (Some 0%float).
  cbn. f_equal. by apply Hround.
Qed.

(** C6, as the code has it.  Both templates take the square root of the
    mean of the squares minus the square of the mean (population
    variance), over the run values that are not NULL, and round it to two
    decimals.  The argument goes to sqrt as computed, with no clamp, so a
    negative one gives NULL.  Q19 gives NULL for a player with a single
    innings, and both give NULL when every run value is NULL.  Groups of
    equal run values whose squares add up below 2^53 give the argument
    zero, bit for bit, and the result zero (from two innings on in Q19).
    For the runs 10, 20, 30 the mean is 20, the mean of the squares
    1400/3, the root lies between 8.1649 and 8.165, and both give 8.16. *)
Theorem C6_stdev_mean_of_squares (sql_round2 : float → Z) :
  rounds_to_hundredths sql_round2 →
  (∀ runs,
     Q19_stdev_runs sql_round2 runs
     = if 1 <? length runs
       then sql_round2 <$>
              sql_sqrt (sql_sub (sql_avg ((λ r, PrimFloat.mul r r) <$> non_null runs))
                                (sql_mul (sql_avg (non_null runs)) (sql_avg (non_null runs))))
       else None)
  ∧ (∀ runs,
       Q23_consistency_stdev sql_round2 runs
       = sql_round2 <$>
           sql_sqrt (sql_sub (sql_avg ((λ r, PrimFloat.mul r r) <$> non_null (take 10 runs)))
                             (sql_mul (sql_avg (non_null (take 10 runs)))
                                      (sql_avg (non_null (take 10 runs))))))
  ∧ (∀ runs v, variance_arg (non_null runs) = Some v → PrimFloat.ltb v 0%float = true →
       Q19_stdev_runs sql_round2 runs = None)
  ∧ (∀ runs v, variance_arg (non_null (take 10 runs)) = Some v →
       PrimFloat.ltb v 0%float = true →
       Q23_consistency_stdev sql_round2 runs = None)
  ∧ (∀ r, Q19_stdev_runs sql_round2 [r] = None)
  ∧ (∀ n, Q19_stdev_runs sql_round2 (replicate n None) = None
          ∧ Q23_consistency_stdev sql_round2 (replicate n None) = None)
  ∧ (∀ (n : nat) (r : Z),
       1 ≤ n → (Z.of_nat n < 2 ^ 53)%Z → (Z.of_nat n * (r * r) < 2 ^ 53)%Z →
       variance_arg (non_null (replicate n (Some r))) = Some 0%float
       ∧ (2 ≤ n → Q19_stdev_runs sql_round2 (replicate n (Some r)) = Some 0%Z)
       ∧ Q23_consistency_stdev sql_round2 (replicate n (Some r)) = Some 0%Z)
  ∧ variance_arg (non_null [Some 10; Some 20; Some 30]%Z)
    = sql_sub (Some (PrimFloat.div (sql_real 1400) (sql_real 3)))
              (Some (PrimFloat.mul (sql_real 20) (sql_real 20)))
  ∧ (∃ v, sql_sqrt (variance_arg (non_null [Some 10; Some 20; Some 30]%Z)) = Some v
          ∧ PrimFloat.ltb (PrimFloat.div (sql_real 81649) (sql_real 10000)) v = true
          ∧ PrimFloat.ltb v (PrimFloat.div (sql_real 8165) (sql_real 1000)) = true)
  ∧ Q19_stdev_runs sql_round2 [Some 10; Some 20; Some 30]%Z = Some 816%Z
  ∧ Q23_consistency_stdev sql_round2 [Some 10; Some 20; Some 30]%Z = Some 816%Z.
Proof.
  intros Hround.
  assert (∀ n r, 1 ≤ n → (Z.of_nat n < 2 ^ 53)%Z → (Z.of_nat n * (r * r) < 2 ^ 53)%Z →
            variance_arg (non_null (replicate n (Some r))) = Some 0%float) as Hzero.
  { intros n r Hn Hb Hs. rewrite non_null_replicate.
    apply variance_arg_identical; [done|unfold small; lia|unfold small; nia]. }
  assert (∃ v, sql_sqrt (variance_arg (non_null [Some 10; Some 20; Some 30]%Z)) = Some v
               ∧ clear_of_ties v 816 = true) as (root & Hroot & Hclear).
  { eexists. split; vm_compute; reflexivity. }
  split; [|split; [|split; [|split; [|split; [|split; [|split]]]]]].
  - intros runs. unfold Q19_stdev_runs. by destruct (1 <? length runs).
  - done.
  - intros runs v Hv Hneg. unfold Q19_stdev_runs.
    destruct (1 <? length runs); [|done]. by rewrite Hv, sql_sqrt_negative.
  - intros runs v Hv Hneg. unfold Q23_consistency_stdev. by rewrite Hv, sql_sqrt_negative.
  - done.
  - intros n. unfold Q19_stdev_runs, Q23_consistency_stdev.
    rewrite take_replicate, !non_null_nulls. by destruct (1 <? _).
  - intros n r Hn Hb Hs. split; [by apply Hzero|]. split.
    + intros Hn2. unfold Q19_stdev_runs. rewrite length_replicate.
      replace (1 <? n) with true by (symmetry; apply Nat.ltb_lt; lia).
      rewrite Hzero by done. by apply rounded_zero.
    + unfold Q23_consistency_stdev. rewrite take_replicate.
      rewrite Hzero by nia. by apply rounded_zero.
  - split; [vm_compute; reflexivity|]. split.
    { eexists. split; [vm_compute; reflexivity|]. split; vm_compute; reflexivity. }
    split.
    + unfold Q19_stdev_runs. cbn [length Nat.ltb Nat.leb]. rewrite Hroot. cbn.
      f_equal. by apply Hround.
    + unfold Q23_consistency_stdev.
      change (take 10 [Some 10; Some 20; Some 30]%Z) with [Some 10; Some 20; Some 30]%Z.
      rewrite Hroot. cbn. f_equal. by apply Hround.
Qed.

Lemma C6_stdev_mean_of_squares_witness :
  Q19_stdev_runs nearest_hundredths [Some 10; Some 20; Some 30]%Z = Some 816%Z
  ∧ Q23_consistency_stdev nearest_hundredths [Some 10; Some 20; Some 30]%Z = Some 816%Z
  ∧ Q19_stdev_runs nearest_hundredths (replicate 3 (Some 50%Z)) = Some 0%Z.
Proof.
  destruct (C6_stdev_mean_of_squares nearest_hundredths nearest_hundredths_spec)
    as (_ & _ & _ & _ & _ & _ & Hzero & _ & _ & H19 & H23).
  split; [exact H19|]. split; [exact H23|].
  destruct (Hzero 3 50%Z) as (_ & Hq & _); [lia|lia|lia|]. apply Hq. lia.
Defined.

(** C6 as stated fails.  A player with one innings has all values equal,
    and Q19 answers NULL, not zero.  Nothing clamps the argument of sqrt:
    for five innings of 42443369, 42443369, 42443369, 42443369 and
    42443370 runs the computed argument is -0.25, and both templates
    answer NULL.  And equal values do not always give zero: for five
    innings of 94906262 the computed argument is -1, and both answer NULL
    again. *)
Lemma C6_counterexample :
  (∀ sql_round2, Q19_stdev_runs sql_round2 [Some 50%Z] = None)
  ∧ variance_arg (non_null cancelling_runs) = Some (-0.25)%float
  ∧ (∀ sql_round2, Q19_stdev_runs sql_round2 cancelling_runs = None
                   ∧ Q23_consistency_stdev sql_round2 cancelling_runs = None)
  ∧ variance_arg (non_null large_equal_runs) = Some (-1)%float
  ∧ (∀ sql_round2, Q19_stdev_runs sql_round2 large_equal_runs = None
                   ∧ Q23_consistency_stdev sql_round2 large_equal_runs = None).
Proof.
  assert (variance_arg (non_null cancelling_runs) = Some (-0.25)%float) as H1
    by (vm_compute; reflexivity).
  assert (variance_arg (non_null large_equal_runs) = Some (-1)%float) as H2
    by (vm_compute; reflexivity).
  split; [done|]. split; [done|]. split; [|split; [done|]].
  - intros sql_round2. unfold Q19_stdev_runs, Q23_consistency_stdev.
    change (take 10 cancelling_runs) with cancelling_runs.
    rewrite H1, sql_sqrt_negative by reflexivity. done.
  - intros sql_round2. unfold Q19_stdev_runs, Q23_consistency_stdev.
    change (take 10 large_equal_runs) with large_equal_runs.
    rewrite H2, sql_sqrt_negative by reflexivity. done.
Qed.

(** COUNT( * ) counts a row whose run value is NULL, AVG skips it: one
    innings of 50 and one of NULL make a group of two with the spread
    zero. *)
Example null_run_counted :
  Q19_stdev_runs nearest_hundredths [Some 50%Z; None] = Some 0%Z
  ∧ Q19_stdev_runs nearest_hundredths [Some 50%Z] = None
  ∧ Q23_consistency_stdev nearest_hundredths [None; Some 50%Z] = Some 0%Z.
Proof. repeat split; vm_compute; reflexivity. Qed.

(** ** Further properties of the text helpers *)

Lemma py_lstrip_app a b :
  py_lstrip (a ++ b) = if forallb py_isspace a then py_lstrip b else py_lstrip a ++ b.
Proof.
  induction a as [|c a IH]; simpl; [done|].
  destruct (py_isspace c); simpl; [apply IH|done].
Qed.

Lemma py_rstrip_app a b :
  py_rstrip (a ++ b) = if forallb py_isspace b then py_rstrip a else a ++ py_rstrip b.
Proof.
  unfold py_rstrip. rewrite reverse_app, py_lstrip_app, forallb_reverse.
  destruct (forallb py_isspace b); [done|].
  by rewrite reverse_app, reverse_involutive.
Qed.

(** White space around a text does not change what [strip] makes of it. *)
Lemma py_strip_pad ws ws' s :
  forallb py_isspace ws = true → forallb py_isspace ws' = true →
  py_strip (ws ++ s ++ ws') = py_strip s.
Proof.
  intros Hws Hws'. unfold py_strip at 1.
  rewrite py_lstrip_app, Hws, py_lstrip_app.
  destruct (forallb py_isspace s) eqn:Hs.
  - rewrite (py_lstrip_spaces _ Hws'). symmetry. by apply py_strip_nil.
  - by rewrite py_rstrip_app, Hws'.
Qed.

Lemma py_lstrip_head s c r : py_lstrip s = c :: r → py_isspace c = false.
Proof.
  induction s as [|d s IH]; simpl; [done|].
  destruct (py_isspace d) eqn:Hd; [done|]. by intros [= <- _].
Qed.

(** What [strip] returns neither begins nor ends with white space. *)
Lemma py_strip_ends s c :
  head (py_strip s) = Some c ∨ last (py_strip s) = Some c → py_isspace c = false.
Proof.
  unfold py_strip, py_rstrip. intros [H|H].
  - (* the head survives the right strip: it is the head of the left strip *)
    destruct (py_lstrip s) as [|d t] eqn:Hl; [done|].
    pose proof (py_lstrip_head _ _ _ Hl) as Hd.
    change (d :: t) with ([d] ++ t) in H.
    rewrite reverse_app, py_lstrip_app in H.
    destruct (forallb py_isspace (reverse t)).
    + simpl in H. rewrite Hd in H. by injection H as <-.
    + rewrite reverse_app, reverse_involutive in H. by injection H as <-.
  - rewrite last_reverse in H.
    destruct (py_lstrip (reverse (py_lstrip s))) as [|d t] eqn:Hl; [done|].
    injection H as <-. by apply py_lstrip_head in Hl.
Qed.

(** ** Further properties of the operations *)

Lemma py_strip_visible s : forallb py_isspace s = false → py_strip s ≠ [].
Proof. intros H Hs. apply py_strip_nil in Hs. congruence. Qed.

(** [delete_rows] raises ValueError exactly when its WHERE clause is
    blank, and [execute_update] exactly when one of its clauses is; a
    blank SET clause is reported first, a blank WHERE clause only when the
    SET clause is not blank.  With no blank clause the first thing either
    does is to ask for the connection. *)
Theorem mutation_ValueError_iff (eng : Engine) (database table set_clause where_clause : pystr) :
  ((∃ msg, (delete_rows eng database table where_clause).1 = Raise (ValueError msg))
   ↔ forallb py_isspace where_clause = true)
  ∧ ((∃ msg, (execute_update eng database table set_clause where_clause).1
             = Raise (ValueError msg))
     ↔ forallb py_isspace set_clause = true ∨ forallb py_isspace where_clause = true)
  ∧ (if forallb py_isspace where_clause
     then delete_rows eng database table where_clause
          = (Raise (ValueError (str "Refusing to delete without a WHERE clause.")), [])
     else head (delete_rows eng database table where_clause).2
          = Some (EConnect (Some database)))
  ∧ (if forallb py_isspace set_clause
     then execute_update eng database table set_clause where_clause
          = (Raise (ValueError (str "SET clause cannot be empty.")), [])
     else if forallb py_isspace where_clause
     then execute_update eng database table set_clause where_clause
          = (Raise (ValueError (str "Refusing to update without a WHERE clause.")), [])
     else head (execute_update eng database table set_clause where_clause).2
          = Some (EConnect (Some database))).
Proof.
  split; [|split; [|split]].
  - split.
    + intros [msg H]. destruct (forallb py_isspace where_clause) eqn:Hw; [done|].
      apply py_strip_visible in Hw. revert H. unfold delete_rows.
      destruct (py_strip where_clause) as [|c w]; [done|].
      unfold create_connection, cur_execute, cursor_execute.
      destruct (connect eng (Some database)) as [[]|]; simpl; [|done].
      by destruct (execute eng _ _ _).
    + intros H%py_strip_nil. unfold delete_rows. rewrite H. eauto.
  - split.
    + intros [msg H].
      destruct (forallb py_isspace set_clause) eqn:Hs; [by left|].
      destruct (forallb py_isspace where_clause) eqn:Hw; [by right|].
      apply py_strip_visible in Hs, Hw. revert H. unfold execute_update.
      destruct (py_strip set_clause) as [|c s]; [done|].
      destruct (py_strip where_clause) as [|d w]; [done|].
      unfold create_connection, cur_execute, cursor_execute.
      destruct (connect eng (Some database)) as [[]|]; simpl; [|done].
      by destruct (execute eng _ _ _).
    + unfold execute_update. intros [H%py_strip_nil|H%py_strip_nil]; rewrite H.
      * eauto.
      * destruct (py_strip set_clause); eauto.
  - unfold delete_rows.
    destruct (forallb py_isspace where_clause) eqn:Hw.
    { apply py_strip_nil in Hw. by rewrite Hw. }
    apply py_strip_visible in Hw.
    destruct (py_strip where_clause) as [|d w]; [done|].
    unfold create_connection, cur_execute, cursor_execute.
    destruct (connect eng (Some database)) as [[]|]; simpl; [|done].
    by destruct (execute eng _ _ _).
  - unfold execute_update.
    destruct (forallb py_isspace set_clause) eqn:Hs.
    { apply py_strip_nil in Hs. by rewrite Hs. }
    apply py_strip_visible in Hs.
    destruct (py_strip set_clause) as [|c s]; [done|].
    destruct (forallb py_isspace where_clause) eqn:Hw.
    { apply py_strip_nil in Hw. by rewrite Hw. }
    apply py_strip_visible in Hw.
    destruct (py_strip where_clause) as [|d w]; [done|].
    unfold create_connection, cur_execute, cursor_execute.
    destruct (connect eng (Some database)) as [[]|]; simpl; [|done].
    by destruct (execute eng _ _ _).
Qed.

(** The statement of [delete_rows] and of [execute_update] is built from
    the trimmed clauses, which go into the text as they are and without
    parameters: DELETE FROM `table` WHERE w; and UPDATE `table` SET s
    WHERE w;.  It is issued once, on an accepted connection only.  A
    trimmed clause neither begins nor ends with white space, and white
    space around a clause changes nothing of what the operation does. *)
Theorem mutation_statement_trimmed (eng : Engine)
    (database table set_clause where_clause ws ws' : pystr) :
  forallb py_isspace ws = true → forallb py_isspace ws' = true →
  delete_rows eng database table (ws ++ where_clause ++ ws')
    = delete_rows eng database table where_clause
  ∧ execute_update eng database table (ws ++ set_clause ++ ws') (ws' ++ where_clause ++ ws)
    = execute_update eng database table set_clause where_clause
  ∧ executed (delete_rows eng database table where_clause).2
    = match py_strip where_clause, connect eng (Some database) with
      | _ :: _, Answer _ =>
        [(str "DELETE FROM `" ++ table ++ str "` WHERE " ++ py_strip where_clause ++ str ";", [])]
      | _, _ => []
      end
  ∧ executed (execute_update eng database table set_clause where_clause).2
    = match py_strip set_clause, py_strip where_clause, connect eng (Some database) with
      | _ :: _, _ :: _, Answer _ =>
        [(str "UPDATE `" ++ table ++ str "` SET " ++ py_strip set_clause
            ++ str " WHERE " ++ py_strip where_clause ++ str ";", [])]
      | _, _, _ => []
      end
  ∧ (∀ clause c, head (py_strip clause) = Some c ∨ last (py_strip clause) = Some c →
       py_isspace c = false).
Proof.
  intros Hws Hws'. split; [|split; [|split; [|split]]].
  - unfold delete_rows. by rewrite py_strip_pad.
  - unfold execute_update. by rewrite !py_strip_pad.
  - unfold delete_rows. destruct (py_strip where_clause) as [|c w]; [done|].
    unfold create_connection, cur_execute, cursor_execute.
    destruct (connect eng (Some database)) as [[]|]; simpl; [|done].
    by destruct (execute eng _ _ _).
  - unfold execute_update.
    destruct (py_strip set_clause) as [|c s]; [done|].
    destruct (py_strip where_clause) as [|d w]; [done|].
    unfold create_connection, cur_execute, cursor_execute.
    destruct (connect eng (Some database)) as [[]|]; simpl; [|done].
    by destruct (execute eng _ _ _).
  - apply py_strip_ends.
Qed.

Lemma mutation_statement_trimmed_witness :
  delete_rows demo_engine (str "cricbuzz") (str "players") (str "  id = 1 ")
    = delete_rows demo_engine (str "cricbuzz") (str "players") (str "id = 1")
  ∧ executed (delete_rows demo_engine (str "cricbuzz") (str "players") (str "id = 1")).2
    = [(str "DELETE FROM `players` WHERE id = 1;", [])].
Proof.
  destruct (mutation_statement_trimmed demo_engine (str "cricbuzz") (str "players")
              (str "team = 'India'") (str "id = 1") (str "  ") (str " ") eq_refl eq_refl)
    as (H1 & _ & H3 & _).
  split; [exact H1 | exact H3].
Defined.

(** What the shape of a session says in numbers: at most one connection,
    no more statements than connections, and one close exactly when the
    operation returns. *)
Lemma one_session_counts {A} (m : M A) :
  one_session m →
  length (connections m.2) ≤ 1
  ∧ length (statements m.2) ≤ length (connections m.2)
  ∧ closes m.2 = (if returned m then 1 else 0).
Proof.
  unfold one_session. destruct m as [r events]. cbn [snd].
  destruct events as [|[d| | |] [|e1 [|[| | |] [|e3 events]]]]; try done;
    try (intros [He ->]; destruct e1; try done); try intros ->;
    unfold connections, statements, closes; cbn; repeat split; lia.
Qed.

(** Every operation of the layer, and [run_query] of the catalog page,
    works in at most one session: it asks for the connection first, sends
    at most one statement after it and nothing else, and closes the
    connection last, exactly when it returns; an operation that raises
    after connecting leaves the connection open. *)
Theorem operations_one_session (eng : Engine) (database table text set_clause where_clause : pystr)
    (limit : Z) (data : list (pystr * PyVal)) (sqlite_read : pystr → Reply DataFrame) :
  one_session (fetch_table eng database table limit)
  ∧ one_session (run_select eng database text)
  ∧ one_session (insert_row eng database table data)
  ∧ one_session (delete_rows eng database table where_clause)
  ∧ one_session (execute_update eng database table set_clause where_clause)
  ∧ one_session (run_query sqlite_read text).
Proof.
  split; [|split; [|split; [|split; [|split]]]].
  - unfold fetch_table. session_cases eng database.
  - unfold run_select. destruct (py_startswith _ _); simpl.
    + session_cases eng database.
    + done.
  - unfold insert_row. session_cases eng database.
  - unfold delete_rows. destruct (py_strip where_clause).
    + done.
    + session_cases eng database.
  - unfold execute_update. destruct (py_strip set_clause).
    + done.
    + destruct (py_strip where_clause).
      * done.
      * session_cases eng database.
  - unfold run_query. destruct (sqlite_read text); unfold one_session, returned; cbn; auto.
Qed.

(** When the engine refuses the connection, an operation that got past
    its own check raises [Error] with the engine's message, and no
    statement is issued. *)
Theorem operations_connection_refused (eng : Engine)
    (database table text set_clause where_clause msg : pystr)
    (limit : Z) (data : list (pystr * PyVal)) :
  connect eng (Some database) = Refuse msg →
  fetch_table eng database table limit = (Raise (Error msg), [EConnect (Some database)])
  ∧ insert_row eng database table data = (Raise (Error msg), [EConnect (Some database)])
  ∧ run_select eng database text
    = (if py_startswith (py_lower (py_strip text)) (str "select")
       then (Raise (Error msg), [EConnect (Some database)])
       else (Raise (ValueError (str "Only SELECT queries are allowed here.")), []))
  ∧ (forallb py_isspace where_clause = false →
     delete_rows eng database table where_clause
     = (Raise (Error msg), [EConnect (Some database)]))
  ∧ (forallb py_isspace set_clause = false → forallb py_isspace where_clause = false →
     execute_update eng database table set_clause where_clause
     = (Raise (Error msg), [EConnect (Some database)])).
Proof.
  intros Hc. split; [|split; [|split; [|split]]].
  - unfold fetch_table, create_connection. by rewrite Hc.
  - unfold insert_row, create_connection. by rewrite Hc.
  - unfold run_select, create_connection. rewrite Hc. by destruct (py_startswith _ _).
  - intros Hw%py_strip_visible. unfold delete_rows, create_connection. rewrite Hc.
    by destruct (py_strip where_clause).
  - intros Hs%py_strip_visible Hw%py_strip_visible.
    unfold execute_update, create_connection. rewrite Hc.
    destruct (py_strip set_clause); [done|]. by destruct (py_strip where_clause).
Qed.

Lemma operations_connection_refused_witness :
  fetch_table demo_engine (str "locked") (str "players") 5
    = (Raise (Error (str "Access denied")), [EConnect (Some (str "locked"))])
  ∧ delete_rows demo_engine (str "locked") (str "players") (str "id = 1")
    = (Raise (Error (str "Access denied")), [EConnect (Some (str "locked"))]).
Proof.
  destruct (operations_connection_refused demo_engine (str "locked") (str "players")
              (str "select 1") (str "a = 1") (str "id = 1") (str "Access denied") 5 []
              eq_refl) as (H1 & _ & _ & H4 & _).
  split; [exact H1 | exact (H4 eq_refl)].
Defined.

(** ** The prefix test of [run_select], read on the text itself *)

Lemma letter_not_space c l :
  (97 ≤ l ≤ 122)%N → is_letter_ci c l = true → py_isspace c = false.
Proof.
  unfold is_letter_ci, py_isspace. intros Hl H.
  apply orb_true_iff in H as [H%N.eqb_eq|H%N.eqb_eq]; subst;
    repeat (apply orb_false_iff; split);
    try (apply andb_false_iff; rewrite !N.leb_gt; lia);
    apply N.eqb_neq; lia.
Qed.

Lemma py_lower_head c r l p :
  (97 ≤ l ≤ 122)%N → l ≠ 105%N → l ≠ 107%N →
  py_startswith (py_lower (c :: r)) (l :: p)
  = is_letter_ci c l && py_startswith (py_lower r) p.
Proof.
  intros Hl Hi Hk. unfold py_lower. change ((c :: r) ≫= py_lower_char)
    with (py_lower_char c ++ (r ≫= py_lower_char)).
  unfold py_lower_char, is_letter_ci.
  repeat match goal with
         | |- context [(?a <=? ?b)%N] => destruct (N.leb_spec a b); simpl
         | |- context [(?a =? ?b)%N] => destruct (N.eqb_spec a b); simpl
         end; try done; try lia.
Qed.

Lemma py_lower_prefix p :
  Forall (λ l, (97 ≤ l ≤ 122)%N ∧ l ≠ 105%N ∧ l ≠ 107%N) p →
  ∀ t, py_startswith (py_lower t) p = ci_prefix t p.
Proof.
  induction 1 as [|l p (Hl & Hi & Hk) Hp IH]; intros t.
  { by destruct (py_lower t), t. }
  destruct t as [|c t]; [done|].
  rewrite py_lower_head by done. simpl. by rewrite IH.
Qed.

Lemma py_rstrip_cons c t :
  py_rstrip (c :: t)
  = if forallb py_isspace t then (if py_isspace c then [] else [c]) else c :: py_rstrip t.
Proof.
  change (c :: t) with ([c] ++ t). rewrite py_rstrip_app.
  destruct (forallb py_isspace t); [|done].
  unfold py_rstrip. simpl. by destruct (py_isspace c).
Qed.

Lemma ci_prefix_spaces t p :
  Forall (λ l, (97 ≤ l ≤ 122)%N) p → forallb py_isspace t = true →
  ci_prefix t p = ci_prefix [] p.
Proof.
  intros Hp Ht. destruct Hp as [|l p Hl Hp]; [by destruct t|].
  destruct t as [|c t]; [done|]. simpl in *.
  apply andb_true_iff in Ht as [Hc _].
  destruct (is_letter_ci c l) eqn:E; [|done].
  apply (letter_not_space c l Hl) in E. congruence.
Qed.

Lemma ci_prefix_rstrip p :
  Forall (λ l, (97 ≤ l ≤ 122)%N) p → ∀ t, ci_prefix (py_rstrip t) p = ci_prefix t p.
Proof.
  induction 1 as [|l p Hl Hp IH]; intros t; [by destruct (py_rstrip t), t|].
  destruct t as [|c t]; [done|].
  rewrite py_rstrip_cons. destruct (forallb py_isspace t) eqn:Ht.
  - simpl. rewrite (ci_prefix_spaces t p Hp Ht).
    destruct (py_isspace c) eqn:Hc; [|done]. simpl.
    destruct (is_letter_ci c l) eqn:E; [|done].
    apply (letter_not_space c l Hl) in E. congruence.
  - simpl. by rewrite IH.
Qed.

Lemma ci_prefix_app t r p : ci_prefix t p = true → ci_prefix (t ++ r) p = true.
Proof.
  revert t. induction p as [|l p IH]; intros t; [done|].
  destruct t as [|c t]; [done|]. simpl.
  intros [-> H]%andb_true_iff. simpl. by apply IH.
Qed.

Lemma select_letters :
  Forall (λ l, (97 ≤ l ≤ 122)%N ∧ l ≠ 105%N ∧ l ≠ 107%N) (str "select").
Proof. repeat constructor; vm_compute; congruence. Qed.

(** The check of [run_select] is a test on six characters: the text is
    let through exactly when, after its leading white space, it begins
    with the letters s, e, l, e, c, t, each in either case.  Nothing after
    them is looked at: a text that is let through stays so with anything
    appended, and is sent whole. *)
Theorem run_select_six_letters (eng : Engine) (database text : pystr) :
  py_startswith (py_lower (py_strip text)) (str "select")
    = ci_prefix (py_lstrip text) (str "select")
  ∧ ((∃ msg, run_select eng database text = (Raise (ValueError msg), []))
     ↔ ci_prefix (py_lstrip text) (str "select") = false)
  ∧ (ci_prefix (py_lstrip text) (str "select") = true →
     ∀ rest, run_select eng database (text ++ rest)
             = select_accepted eng database (text ++ rest)).
Proof.
  assert (∀ t, py_startswith (py_lower (py_strip t)) (str "select")
               = ci_prefix (py_lstrip t) (str "select")) as Hchk.
  { intros t. rewrite (py_lower_prefix _ select_letters). unfold py_strip.
    apply ci_prefix_rstrip. eapply Forall_impl; [apply select_letters|]. by intros l [? _]. }
  assert (∀ t, ci_prefix (py_lstrip t) (str "select") = true →
               run_select eng database t = select_accepted eng database t) as Hacc.
  { intros t Ht. unfold run_select, select_accepted. rewrite Hchk, Ht. simpl.
    unfold create_connection, pd_read_sql.
    destruct (connect eng (Some database)) as [[]|]; simpl; [|done].
    by destruct (read_sql eng database t). }
  split; [apply Hchk|]. split.
  - split.
    + intros [msg H]. destruct (ci_prefix (py_lstrip text) (str "select")) eqn:E; [|done].
      rewrite (Hacc text E) in H. unfold select_accepted in H.
      destruct (connect eng (Some database)) as [[]|]; [|done].
      by destruct (read_sql eng database text).
    + intros H. unfold run_select. rewrite Hchk, H. simpl. eauto.
  - intros Ht rest. apply Hacc. rewrite py_lstrip_app.
    destruct (forallb py_isspace text) eqn:Hs.
    + by rewrite (py_lstrip_spaces _ Hs) in Ht.
    + by apply ci_prefix_app.
Qed.

Lemma run_select_six_letters_witness :
  run_select demo_engine (str "cricbuzz") (str "  SeLeCt 1" ++ str "; DROP TABLE players;")
  = (Return players_rows,
     [EConnect (Some (str "cricbuzz"));
      EReadSql (str "  SeLeCt 1; DROP TABLE players;"); EClose]).
Proof.
  exact (proj2 (proj2 (run_select_six_letters demo_engine (str "cricbuzz") (str "  SeLeCt 1")))
           eq_refl (str "; DROP TABLE players;")).
Defined.

(** ** Further properties of schema discovery *)

(** Discovery fails only at its first two steps: it raises [Error] with
    the engine's message when the first connection or the listing of the
    databases is refused, before any database is visited, and returns in
    every other case. *)
Theorem discovery_fails_at_start_only (eng : Engine) :
  match connect eng None, show_databases eng with
  | Refuse msg, _ => get_mysql_schema eng = (Raise (Error msg), [EConnect None])
  | Answer _, Refuse msg =>
    get_mysql_schema eng
    = (Raise (Error msg), [EConnect None; EExecute (str "SHOW DATABASES") []])
  | Answer _, Answer dbs => ∃ schema events, get_mysql_schema eng = (Return schema, events)
  end.
Proof.
  destruct (connect eng None) as [[]|msg] eqn:Hc.
  - destruct (show_databases eng) as [dbs|msg] eqn:Hs.
    + by apply (get_mysql_schema_returns eng dbs).
    + unfold get_mysql_schema, create_connection, cursor_execute. by rewrite Hc, Hs.
  - unfold get_mysql_schema, create_connection. by rewrite Hc.
Qed.

Lemma views_lookup (vs : list pystr) (acc : gmap pystr ()) v :
  is_Some (foldl (λ m v, <[v := ()]> m) acc vs !! v) ↔ v ∈ vs ∨ is_Some (acc !! v).
Proof.
  revert acc. induction vs as [|w vs IH]; intros acc; simpl.
  - split; [by right|]. intros [H|H]; [by apply not_elem_of_nil in H|done].
  - rewrite IH, elem_of_cons. destruct (decide (w = v)) as [->|Hne].
    + rewrite lookup_insert_eq. split; [by left; left|eauto].
    + rewrite lookup_insert_ne by done. split; [tauto|].
      intros [[Heq|?]|?]; [congruence|tauto..].
Qed.

(** What an entry is made of, read off the engine. *)
Lemma db_entry_structure (eng : Engine) db st :
  db_entry eng db = Some st →
  (∃ u, connect eng (Some db) = Answer u)
  ∧ ∃ tbls vs, base_tables eng db = Answer tbls ∧ tbls ≠ []
      ∧ view_names eng db = Answer vs
      ∧ (∀ tbl, is_Some (tables st !! tbl) ↔ tbl ∈ tbls)
      ∧ (∀ tbl cols, tbl ∈ tbls → table_columns eng db tbl = Answer cols →
           tables st !! tbl = Some (column_descriptor <$> cols))
      ∧ (∀ tbl, tbl ∈ tbls → ∃ cols, table_columns eng db tbl = Answer cols)
      ∧ (∀ v, is_Some (views st !! v) ↔ v ∈ vs)
      ∧ functions st = ∅ ∧ procedures st = ∅.
Proof.
  unfold db_entry. rewrite discover_db_outcome.
  destruct (connect eng (Some db)) as [u|]; [|done].
  destruct (base_tables eng db) as [[|t tbls]|]; [done| |done].
  pose proof (collect_tables_spec eng db (t :: tbls) ∅) as Hc.
  destruct (collect_tables eng db (t :: tbls) ∅).1 as [m|]; [|done].
  destruct (view_names eng db) as [vs|]; [|done].
  intros [= <-]. simpl. destruct Hc as (Hdom & Hval & Hans & _).
  split; [eauto|]. exists (t :: tbls), vs.
  assert (∀ tbl, is_Some (m !! tbl) ↔ tbl ∈ t :: tbls) as Hkeys.
  { intros tbl. split; [|apply Hdom]. intros [cds Hcds].
    destruct (Hval _ _ Hcds) as [He|[? _]]; [by rewrite lookup_empty in He|done]. }
  repeat split; try done.
  - apply Hkeys.
  - apply Hkeys.
  - intros tbl cols Hin Hcols. destruct (Hdom tbl Hin) as [cds Hcds].
    destruct (Hval _ _ Hcds) as [He|(_ & cols' & Hc' & ->)];
      [by rewrite lookup_empty in He|]. congruence.
  - intros H. apply views_lookup in H as [H|H]; [done|].
    rewrite lookup_empty in H. by destruct H.
  - intros H. apply views_lookup. by left.
Qed.

Lemma db_entry_readable (eng : Engine) db :
  is_Some (db_entry eng db) ↔ db_readable eng db.
Proof.
  split.
  - intros [st Hst]. destruct (db_entry_structure eng db st Hst)
      as (Hc & tbls & vs & Hb & Hne & Hv & _ & _ & Hans & _).
    split; [done|]. exists tbls, vs. eauto.
  - intros ([u Hc] & tbls & vs & Hb & Hne & Hans & Hv).
    unfold db_entry. rewrite discover_db_outcome, Hc, Hb.
    destruct tbls as [|t tbls]; [done|].
    pose proof (collect_tables_spec eng db (t :: tbls) ∅) as Hs.
    destruct (collect_tables eng db (t :: tbls) ∅).1 as [m|e].
    + rewrite Hv. eauto.
    + destruct Hs as (tbl & msg & _ & Hin & Hr).
      destruct (Hans tbl Hin) as [cols Hcols]. congruence.
Qed.

(** The databases of the result are exactly the listed databases that are
    not excluded and that discovery can read to the end. *)
Theorem schema_lists_readable_databases (eng : Engine) (schema : gmap pystr DbStructure)
    (events : list Event) :
  get_mysql_schema eng = (Return schema, events) →
  ∃ dbs, show_databases eng = Answer dbs
    ∧ ∀ db, is_Some (schema !! db) ↔ db ∈ dbs ∧ (db ∉ excluded_dbs) ∧ db_readable eng db.
Proof.
  intros H. destruct (get_mysql_schema_lookup eng _ _ H) as (dbs & Hdbs & Hl).
  exists dbs. split; [done|]. intros db. rewrite Hl, <- db_entry_readable.
  destruct (bool_decide (db ∈ dbs ∧ db ∉ excluded_dbs)) eqn:E.
  - apply bool_decide_eq_true in E. tauto.
  - apply bool_decide_eq_false in E. split; [by intros []|tauto].
Qed.

Lemma schema_lists_readable_databases_witness :
  ∃ dbs, show_databases demo_engine = Answer dbs
    ∧ (is_Some (demo_schema !! str "cricbuzz")
       ↔ str "cricbuzz" ∈ dbs ∧ (str "cricbuzz" ∉ excluded_dbs)
         ∧ db_readable demo_engine (str "cricbuzz")).
Proof.
  destruct (schema_lists_readable_databases demo_engine demo_schema _ demo_discovery)
    as (dbs & Hdbs & H).
  exists dbs. split; [exact Hdbs | exact (H (str "cricbuzz"))].
Defined.

(** In an entry of the result the tables are exactly the base tables the
    engine lists, each with the descriptors of its column rows in the
    engine's order; the views are exactly the views the engine lists; and
    the functions and procedures are always empty. *)
Theorem schema_entry_contents (eng : Engine) (schema : gmap pystr DbStructure)
    (events : list Event) (db : pystr) (st : DbStructure) :
  get_mysql_schema eng = (Return schema, events) →
  schema !! db = Some st →
  ∃ tbls vs, base_tables eng db = Answer tbls ∧ view_names eng db = Answer vs
    ∧ (∀ tbl, is_Some (tables st !! tbl) ↔ tbl ∈ tbls)
    ∧ (∀ tbl cols, tbl ∈ tbls → table_columns eng db tbl = Answer cols →
         tables st !! tbl = Some (column_descriptor <$> cols))
    ∧ (∀ v, is_Some (views st !! v) ↔ v ∈ vs)
    ∧ functions st = ∅ ∧ procedures st = ∅.
Proof.
  intros H Hdb. destruct (get_mysql_schema_lookup eng _ _ H) as (dbs & Hdbs & Hl).
  rewrite Hl in Hdb. destruct (bool_decide _); [|done].
  destruct (db_entry_structure eng db st Hdb)
    as (_ & tbls & vs & Hb & _ & Hv & Hk & Hc & _ & Hvs & Hf & Hp).
  exists tbls, vs. eauto 10.
Qed.

Lemma schema_entry_contents_witness :
  ∃ tbls vs, base_tables demo_engine (str "cricbuzz") = Answer tbls
    ∧ view_names demo_engine (str "cricbuzz") = Answer vs
    ∧ (∀ tbl, is_Some (tables cricbuzz_structure !! tbl) ↔ tbl ∈ tbls)
    ∧ (∀ tbl cols, tbl ∈ tbls → table_columns demo_engine (str "cricbuzz") tbl = Answer cols →
         tables cricbuzz_structure !! tbl = Some (column_descriptor <$> cols))
    ∧ (∀ v, is_Some (views cricbuzz_structure !! v) ↔ v ∈ vs)
    ∧ functions cricbuzz_structure = ∅ ∧ procedures cricbuzz_structure = ∅.
Proof.
  apply (schema_entry_contents demo_engine demo_schema _ (str "cricbuzz") cricbuzz_structure
           demo_discovery).
  vm_compute. reflexivity.
Defined.

(** *** The connections of a discovery *)

Lemma bind_log {A B} (m : M A) (f : A → M B) :
  (m ≫= f).2 = m.2 ++ match m.1 with Return a => (f a).2 | Raise _ => [] end.
Proof.
  destruct m as [[a|e] l]; simpl.
  - unfold mbind, M_bind, bind. by destruct (f a).
  - by rewrite app_nil_r.
Qed.

Lemma connections_app l1 l2 : connections (l1 ++ l2) = connections l1 ++ connections l2.
Proof. apply bind_app. Qed.

Lemma closes_app l1 l2 : closes (l1 ++ l2) = closes l1 + closes l2.
Proof. unfold closes. by rewrite bind_app, length_app. Qed.

Lemma filter_ext_elem {A} (P Q : A → Prop) `{∀ x, Decision (P x)} `{∀ x, Decision (Q x)}
    (l : list A) :
  (∀ x, x ∈ l → P x ↔ Q x) → filter P l = filter Q l.
Proof.
  induction l as [|x l IH]; intros HPQ; [done|].
  rewrite !filter_cons. rewrite IH by (intros y Hy; apply HPQ; by right).
  destruct (decide (P x)) as [HP|HP], (decide (Q x)) as [HQ|HQ]; try done.
  - destruct HQ. apply HPQ; [left|done].
  - destruct HP. apply HPQ; [left|done].
Qed.

Section DiscoveryLog.
Context (eng : Engine).

Lemma cursor_execute_log {A} sql params (r : Reply A) :
  connections (cursor_execute sql params r).2 = [] ∧ closes (cursor_execute sql params r).2 = 0.
Proof. unfold cursor_execute. by destruct r. Qed.

Lemma collect_tables_log db tbls acc :
  connections (collect_tables eng db tbls acc).2 = []
  ∧ closes (collect_tables eng db tbls acc).2 = 0.
Proof.
  revert acc. induction tbls as [|tbl rest IH]; intros acc; [done|].
  cbn [collect_tables]. rewrite bind_log, connections_app, closes_app.
  destruct (cursor_execute_log col_q [VStr db; VStr tbl] (table_columns eng db tbl))
    as [-> ->].
  destruct (cursor_execute col_q _ _).1 as [cols|]; [|done].
  apply IH.
Qed.

Lemma create_connection_log database :
  connections (create_connection eng database).2 = [database]
  ∧ closes (create_connection eng database).2 = 0.
Proof. unfold create_connection. by destruct (connect eng database). Qed.

(** One visit asks for one connection, and closes it only when the whole
    body has run. *)
Lemma discover_db_log db :
  connections (discover_db eng db).2 = [Some db]
  ∧ closes (discover_db eng db).2 = match db_entry eng db with Some _ => 1 | None => 0 end.
Proof.
  unfold db_entry. rewrite discover_db_outcome. unfold discover_db.
  rewrite bind_log, connections_app, closes_app, create_connection_outcome.
  rewrite (proj1 (create_connection_log _)), (proj2 (create_connection_log _)).
  destruct (connect eng (Some db)) as [[]|]; [|done].
  rewrite bind_log, connections_app, closes_app, cursor_execute_outcome.
  rewrite (proj1 (cursor_execute_log _ _ _)), (proj2 (cursor_execute_log _ _ _)).
  destruct (base_tables eng db) as [[|t tbls]|]; [done| |done].
  rewrite bind_log, connections_app, closes_app.
  rewrite (proj1 (collect_tables_log _ _ _)), (proj2 (collect_tables_log _ _ _)).
  destruct (collect_tables eng db (t :: tbls) ∅).1 as [m|]; [|done].
  rewrite bind_log, connections_app, closes_app, cursor_execute_outcome.
  rewrite (proj1 (cursor_execute_log _ _ _)), (proj2 (cursor_execute_log _ _ _)).
  by destruct (view_names eng db).
Qed.

Lemma discover_loop_log dbs acc :
  connections (discover_loop eng dbs acc).2
    = Some <$> filter (λ db, db ∉ excluded_dbs) dbs
  ∧ closes (discover_loop eng dbs acc).2
    = length (filter (λ db, (db ∉ excluded_dbs) ∧ is_Some (db_entry eng db)) dbs).
Proof.
  revert acc. induction dbs as [|d rest IH]; intros acc; [done|].
  cbn [discover_loop]. rewrite !filter_cons.
  destruct (decide (d ∈ excluded_dbs)) as [Hex|Hex].
  - rewrite decide_False by tauto. rewrite decide_False by tauto. apply IH.
  - rewrite (decide_True (P := d ∉ excluded_dbs)) by done.
    rewrite bind_log, connections_app, closes_app.
    assert ((try_except_Error (discover_db eng d) (ret None)).2 = (discover_db eng d).2) as ->.
    { destruct (discover_db eng d) as [[?|[]] l]; simpl; by rewrite ?app_nil_r. }
    rewrite (proj1 (discover_db_log d)), (proj2 (discover_db_log d)).
    rewrite try_except_Error_outcome.
    pose proof (discover_db_raises eng d) as Hr. unfold db_entry.
    destruct (discover_db eng d).1 as [[st|]|e].
    + rewrite decide_True by eauto. destruct (IH (<[d:=st]> acc)) as [-> ->]. done.
    + rewrite decide_False by (intros [_ []]; done). by destruct (IH acc) as [-> ->].
    + destruct (Hr e eq_refl) as [msg ->].
      rewrite decide_False by (intros [_ []]; done). by destruct (IH acc) as [-> ->].
Qed.

Lemma get_mysql_schema_log dbs :
  connect eng None = Answer () → show_databases eng = Answer dbs →
  connections (get_mysql_schema eng).2
    = None :: (Some <$> filter (λ db, db ∉ excluded_dbs) dbs)
  ∧ closes (get_mysql_schema eng).2
    = S (length (filter (λ db, (db ∉ excluded_dbs) ∧ is_Some (db_entry eng db)) dbs)).
Proof.
  intros Hc Hs. unfold get_mysql_schema.
  rewrite bind_log, connections_app, closes_app, create_connection_outcome, Hc.
  rewrite (proj1 (create_connection_log _)), (proj2 (create_connection_log _)).
  rewrite bind_log, connections_app, closes_app, cursor_execute_outcome, Hs.
  rewrite (proj1 (cursor_execute_log _ _ _)), (proj2 (cursor_execute_log _ _ _)).
  rewrite bind_log, connections_app, closes_app.
  rewrite (proj1 (discover_loop_log _ _)), (proj2 (discover_loop_log _ _)).
  destruct (discover_loop_spec eng dbs ∅) as (m & -> & _).
  unfold connections, closes. cbn. rewrite !app_nil_r. split; [done|]. lia.
Qed.

Lemma get_mysql_schema_started schema events :
  get_mysql_schema eng = (Return schema, events) → connect eng None = Answer ().
Proof.
  intros H. apply (f_equal fst) in H. revert H. unfold get_mysql_schema.
  rewrite bind_outcome, create_connection_outcome.
  by destruct (connect eng None) as [[]|].
Qed.

End DiscoveryLog.

(** A discovery connects once without a database and then once to every
    listed database that is not excluded, in the order of the listing; it
    never connects to an excluded system database.  It closes the first
    connection and the connections of the databases that are in the
    result; the connection to a database that is left out (no base table,
    or a failure) stays open. *)
Theorem discovery_connections (eng : Engine) (schema : gmap pystr DbStructure)
    (events : list Event) :
  get_mysql_schema eng = (Return schema, events) →
  ∃ dbs, show_databases eng = Answer dbs
    ∧ connections events = None :: (Some <$> filter (λ db, db ∉ excluded_dbs) dbs)
    ∧ (∀ db, db ∈ excluded_dbs → EConnect (Some db) ∉ events)
    ∧ closes events = S (length (filter (λ db, is_Some (schema !! db)) dbs)).
Proof.
  intros H. destruct (get_mysql_schema_lookup eng _ _ H) as (dbs & Hdbs & Hl).
  exists dbs. split; [done|].
  assert (events = (get_mysql_schema eng).2) as -> by by rewrite H.
  destruct (get_mysql_schema_log eng dbs (get_mysql_schema_started eng _ _ H) Hdbs)
    as [Hconn Hcl].
  split; [done|]. split.
  - intros db Hex Hin.
    assert (Some db ∈ connections (get_mysql_schema eng).2) as Hc.
    { unfold connections. apply list_elem_of_bind. exists (EConnect (Some db)).
      split; [left|done]. }
    rewrite Hconn in Hc. apply elem_of_cons in Hc as [Hc|Hc]; [done|].
    apply list_elem_of_fmap in Hc as (db' & [= <-] & Hf).
    apply list_elem_of_filter in Hf as [Hf _]. done.
  - rewrite Hcl. f_equal. f_equal. apply filter_ext_elem. intros db Hin.
    rewrite Hl. destruct (bool_decide (db ∈ dbs ∧ db ∉ excluded_dbs)) eqn:E.
    + apply bool_decide_eq_true in E. tauto.
    + apply bool_decide_eq_false in E. split; [tauto|by intros []].
Qed.

Lemma discovery_connections_witness :
  ∃ dbs, show_databases demo_engine = Answer dbs
    ∧ connections (get_mysql_schema demo_engine).2
      = None :: (Some <$> filter (λ db, db ∉ excluded_dbs) dbs)
    ∧ closes (get_mysql_schema demo_engine).2
      = S (length (filter (λ db, is_Some (demo_schema !! db)) dbs)).
Proof.
  destruct (discovery_connections demo_engine demo_schema _ demo_discovery)
    as (dbs & Hdbs & Hconn & _ & Hcl).
  exists dbs. split; [exact Hdbs|]. split; [exact Hconn | exact Hcl].
Defined.

(** On the engine of the examples: five connections, three closes; the
    connections to [reports] (no base table) and [locked] (refused) are
    not closed. *)
Example discovery_connections_demo :
  connections (get_mysql_schema demo_engine).2
    = [None; Some (str "cricbuzz"); Some (str "reports"); Some (str "locked");
       Some (str "staging")]
  ∧ closes (get_mysql_schema demo_engine).2 = 3.
Proof. split; vm_compute; reflexivity. Qed.

(** ** The listings built on discovery *)

Lemma py_str_le_refl a : py_str_le a a = true.
Proof. induction a as [|x a IH]; simpl; [done|]. by rewrite N.ltb_irrefl, N.eqb_refl. Qed.

Lemma py_str_le_total a b : py_str_le a b = true ∨ py_str_le b a = true.
Proof.
  revert b. induction a as [|x a IH]; intros [|y b]; simpl; auto.
  destruct (N.ltb_spec x y), (N.ltb_spec y x); auto; try lia.
  assert (x = y) as -> by lia. rewrite N.eqb_refl. apply IH.
Qed.

Lemma py_str_le_trans a b c :
  py_str_le a b = true → py_str_le b c = true → py_str_le a c = true.
Proof.
  revert b c. induction a as [|x a IH]; intros [|y b] [|z c]; simpl; try done.
  destruct (N.ltb_spec x y), (N.ltb_spec y z), (N.ltb_spec x z); try done; try lia;
    destruct (N.eqb_spec x y), (N.eqb_spec y z), (N.eqb_spec x z);
    try done; try lia; eauto.
Qed.

Lemma py_str_le_antisym a b : py_str_le a b = true → py_str_le b a = true → a = b.
Proof.
  revert b. induction a as [|x a IH]; intros [|y b]; simpl; try done.
  destruct (N.ltb_spec x y), (N.ltb_spec y x); try done; try lia;
    destruct (N.eqb_spec x y), (N.eqb_spec y x); try done; try lia.
  subst. intros ??. f_equal. auto.
Qed.

Local Instance py_str_le_Total : Total (λ a b : pystr, py_str_le a b).
Proof.
  intros a b. destruct (py_str_le_total a b) as [H|H]; rewrite H; [by left|by right].
Qed.

Local Instance py_str_le_Transitive : Transitive (λ a b : pystr, py_str_le a b).
Proof.
  intros a b c Hab Hbc. apply Is_true_true. apply Is_true_true in Hab, Hbc.
  by apply (py_str_le_trans a b c).
Qed.

(** [sorted] returns the same texts, in ascending order; of distinct
    texts it returns distinct ones. *)
Lemma py_sorted_spec l :
  py_sorted l ≡ₚ l ∧ StronglySorted (λ a b : pystr, py_str_le a b) (py_sorted l).
Proof.
  split; [apply merge_sort_Permutation|]. apply StronglySorted_merge_sort; apply _.
Qed.

Lemma dict_keys_spec {V} (d : gmap pystr V) k :
  k ∈ dict_keys d ↔ is_Some (d !! k).
Proof.
  unfold dict_keys. rewrite list_elem_of_fmap. split.
  - intros ([k' v] & -> & Hin). apply elem_of_map_to_list in Hin. eauto.
  - intros [v Hv]. exists (k, v). split; [done|]. by apply elem_of_map_to_list.
Qed.

Lemma sorted_keys_spec {V} (d : gmap pystr V) :
  (∀ k, k ∈ py_sorted (dict_keys d) ↔ is_Some (d !! k))
  ∧ NoDup (py_sorted (dict_keys d))
  ∧ StronglySorted (λ a b : pystr, py_str_le a b) (py_sorted (dict_keys d)).
Proof.
  destruct (py_sorted_spec (dict_keys d)) as [Hp Hs]. repeat split; [..|done].
  - rewrite Hp. apply dict_keys_spec.
  - rewrite Hp. intros H. by apply dict_keys_spec.
  - rewrite Hp. apply NoDup_fst_map_to_list.
Qed.

Local Instance py_str_le_AntiSymm : AntiSymm (=) (λ a b : pystr, py_str_le a b).
Proof.
  intros a b Hab Hba. apply Is_true_true in Hab, Hba. by apply py_str_le_antisym.
Qed.

(** The order in which the keys of a dict are handed to [sorted] does not
    matter. *)
Lemma py_sorted_unique l l' : l ≡ₚ l' → py_sorted l = py_sorted l'.
Proof.
  intros Hp. destruct (py_sorted_spec l) as [H1 S1], (py_sorted_spec l') as [H2 S2].
  apply (StronglySorted_unique (λ a b : pystr, py_str_le a b)); [done..|].
  by rewrite H1, H2.
Qed.

Lemma after_discovery {A} (eng : Engine) (f : gmap pystr DbStructure → A) out events :
  (schema ← get_mysql_schema eng; ret (f schema)) = (Return out, events) →
  ∃ schema, get_mysql_schema eng = (Return schema, events) ∧ out = f schema.
Proof.
  destruct (get_mysql_schema eng) as [[schema|e] l]; [|done].
  unfold mbind, M_bind, bind, ret. simpl. rewrite app_nil_r.
  intros [= <- <-]. eauto.
Qed.

(** [list_databases] returns the databases of the schema, each once, in
    ascending order of their names; no system database is among them. *)
Theorem list_databases_sorted (eng : Engine) (out : list pystr) (events : list Event) :
  list_databases eng = (Return out, events) →
  ∃ schema, get_mysql_schema eng = (Return schema, events)
    ∧ (∀ db, db ∈ out ↔ is_Some (schema !! db))
    ∧ (∀ db, db ∈ out → db ∉ excluded_dbs)
    ∧ NoDup out
    ∧ StronglySorted (λ a b : pystr, py_str_le a b) out.
Proof.
  intros H. apply after_discovery in H as (schema & H & ->).
  exists schema. destruct (sorted_keys_spec schema) as (Hk & Hn & Hs).
  repeat split; try done; try apply Hk.
  intros db Hin Hex. apply Hk in Hin.
  destruct (get_mysql_schema_lookup eng _ _ H) as (dbs & _ & Hl).
  rewrite Hl in Hin. rewrite bool_decide_eq_false_2 in Hin by tauto. by destruct Hin.
Qed.

Lemma list_databases_sorted_witness :
  list_databases demo_engine
    = (Return [str "cricbuzz"; str "staging"], (get_mysql_schema demo_engine).2)
  ∧ NoDup [str "cricbuzz"; str "staging"].
Proof.
  assert (list_databases demo_engine
          = (Return [str "cricbuzz"; str "staging"], (get_mysql_schema demo_engine).2)) as H.
  { vm_compute. reflexivity. }
  split; [exact H|].
  destruct (list_databases_sorted demo_engine _ _ H) as (_ & _ & _ & _ & Hn & _).
  exact Hn.
Defined.

Lemma list_tables_outcome (eng : Engine) database out events :
  list_tables eng database = (Return out, events) →
  ∃ schema, get_mysql_schema eng = (Return schema, events)
    ∧ out = match schema !! database with
            | None => []
            | Some st => py_sorted (dict_keys (tables st))
            end.
Proof.
  unfold list_tables. destruct (get_mysql_schema eng) as [[schema|e] l]; [|done].
  unfold mbind, M_bind, bind. destruct (schema !! database) eqn:E; simpl;
    rewrite app_nil_r; intros [= <- <-]; exists schema; by rewrite E.
Qed.

(** [list_tables] returns the empty list for a database that is not in
    the schema (unknown, excluded, without base table, or failed);
    otherwise the base tables the engine lists for it, each once, in
    ascending order, and at least one. *)
Theorem list_tables_sorted (eng : Engine) (database : pystr) (out : list pystr)
    (events : list Event) :
  list_tables eng database = (Return out, events) →
  ∃ schema, get_mysql_schema eng = (Return schema, events)
    ∧ (schema !! database = None → out = [])
    ∧ (is_Some (schema !! database) →
       out ≠ []
       ∧ ∃ tbls, base_tables eng database = Answer tbls ∧ ∀ tbl, tbl ∈ out ↔ tbl ∈ tbls)
    ∧ NoDup out
    ∧ StronglySorted (λ a b : pystr, py_str_le a b) out.
Proof.
  intros H. apply list_tables_outcome in H as (schema & H & ->).
  exists schema. split; [done|].
  destruct (schema !! database) as [st|] eqn:Hdb.
  - destruct (sorted_keys_spec (tables st)) as (Hk & Hn & Hs).
    destruct (get_mysql_schema_lookup eng _ _ H) as (dbs & _ & Hl).
    rewrite Hl in Hdb. destruct (bool_decide _); [|done].
    destruct (db_entry_structure eng database st Hdb)
      as (_ & tbls & vs & Hb & Hne & _ & Hkeys & _).
    repeat split; try done.
    + destruct tbls as [|t tbls]; [done|].
      intros Hout. assert (t ∈ py_sorted (dict_keys (tables st))) as Hin.
      { apply Hk, Hkeys. left. }
      rewrite Hout in Hin. by apply not_elem_of_nil in Hin.
    + exists tbls. split; [done|]. intros tbl. by rewrite Hk, Hkeys.
  - split; [done|]. split; [by intros [? ?]|]. split; constructor.
Qed.

Lemma list_tables_sorted_witness :
  list_tables demo_engine (str "cricbuzz")
    = (Return [str "players"], (get_mysql_schema demo_engine).2)
  ∧ list_tables demo_engine (str "reports") = (Return [], (get_mysql_schema demo_engine).2)
  ∧ NoDup [str "players"].
Proof.
  assert (list_tables demo_engine (str "cricbuzz")
          = (Return [str "players"], (get_mysql_schema demo_engine).2)) as H.
  { vm_compute. reflexivity. }
  split; [exact H|]. split; [vm_compute; reflexivity|].
  destruct (list_tables_sorted demo_engine _ _ _ H) as (_ & _ & _ & _ & Hn & _).
  exact Hn.
Defined.

Lemma get_table_columns_outcome (eng : Engine) database table out events :
  get_table_columns eng database table = (Return out, events) →
  ∃ schema, get_mysql_schema eng = (Return schema, events)
    ∧ out = match schema !! database with
            | None => []
            | Some st => default [] (tables st !! table)
            end.
Proof. apply after_discovery. Qed.

(** [get_table_columns] and [list_tables] agree: for a table that
    [list_tables] returns, [get_table_columns] returns the descriptors of
    the column rows of the engine, in the engine's order; for any other
    table, and for a database that is not in the schema, it returns the
    empty list and raises nothing.  Each of the two calls runs the whole
    discovery again. *)
Theorem get_table_columns_of_listed (eng : Engine) (database table : pystr)
    (tbls_out : list pystr) (cols_out : list ColumnDescriptor) (events events' : list Event) :
  list_tables eng database = (Return tbls_out, events) →
  get_table_columns eng database table = (Return cols_out, events') →
  events' = events
  ∧ events = (get_mysql_schema eng).2
  ∧ (table ∉ tbls_out → cols_out = [])
  ∧ (table ∈ tbls_out →
     ∃ cols, table_columns eng database table = Answer cols
             ∧ cols_out = column_descriptor <$> cols).
Proof.
  intros Ht Hc.
  apply list_tables_outcome in Ht as (schema & H & ->).
  apply get_table_columns_outcome in Hc as (schema' & H' & ->).
  assert (schema' = schema ∧ events' = events) as [-> ->] by (split; congruence).
  split; [done|]. split; [by rewrite H|].
  destruct (schema !! database) as [st|] eqn:Hdb.
  - destruct (sorted_keys_spec (tables st)) as (Hk & _ & _).
    destruct (get_mysql_schema_lookup eng _ _ H) as (dbs & _ & Hl).
    rewrite Hl in Hdb. destruct (bool_decide _); [|done].
    destruct (db_entry_structure eng database st Hdb)
      as (_ & tbls & vs & Hb & Hne & _ & Hkeys & Hcols & Hans & _).
    split.
    + intros Hnot. destruct (tables st !! table) as [cds|] eqn:E; [|done].
      destruct Hnot. apply Hk. eauto.
    + intros Hin. apply Hk, Hkeys in Hin. destruct (Hans table Hin) as [cols Hc].
      exists cols. split; [done|]. by rewrite (Hcols table cols Hin Hc).
  - split; [done|]. intros Hin. by apply not_elem_of_nil in Hin.
Qed.

Lemma get_table_columns_of_listed_witness :
  get_table_columns demo_engine (str "cricbuzz") (str "players")
    = (Return (column_descriptor <$> players_columns), (get_mysql_schema demo_engine).2)
  ∧ ∃ cols, table_columns demo_engine (str "cricbuzz") (str "players") = Answer cols
            ∧ column_descriptor <$> players_columns = column_descriptor <$> cols.
Proof.
  assert (list_tables demo_engine (str "cricbuzz")
          = (Return [str "players"], (get_mysql_schema demo_engine).2)) as Ht.
  { vm_compute. reflexivity. }
  assert (get_table_columns demo_engine (str "cricbuzz") (str "players")
          = (Return (column_descriptor <$> players_columns),
             (get_mysql_schema demo_engine).2)) as Hc.
  { vm_compute. reflexivity. }
  split; [exact Hc|].
  destruct (get_table_columns_of_listed demo_engine _ _ _ _ _ _ Ht Hc) as (_ & _ & _ & Hin).
  apply Hin. left.
Defined.

(** ** The form that adds a row *)

Lemma dict_set_elem {V} (d : list (pystr * V)) k v x :
  x ∈ dict_set d k v → x = (k, v) ∨ x ∈ d.
Proof.
  induction d as [|[k' v'] d IH]; simpl.
  - intros ->%list_elem_of_singleton. by left.
  - destruct (decide (k' = k)) as [->|Hne].
    + intros [->|H]%elem_of_cons; [by left|]. right. by right.
    + intros [->|H]%elem_of_cons; [right; left|].
      destruct (IH H) as [->|H']; [by left|]. right. by right.
Qed.

Lemma dict_set_keys {V} (d : list (pystr * V)) k v :
  (dict_set d k v).*1 = if decide (k ∈ d.*1) then d.*1 else d.*1 ++ [k].
Proof.
  induction d as [|[k' v'] d IH]; [done|]. cbn [dict_set].
  destruct (decide (k' = k)) as [->|Hne]; rewrite !fmap_cons; cbn [fst].
  - by rewrite decide_True by left.
  - rewrite IH. destruct (decide (k ∈ d.*1)) as [Hin|Hin].
    + by rewrite decide_True by (by right).
    + rewrite decide_False; [done|]. intros [?|?]%elem_of_cons; congruence.
Qed.

Lemma dict_set_NoDup {V} (d : list (pystr * V)) k v :
  NoDup d.*1 → NoDup (dict_set d k v).*1.
Proof.
  intros Hn. rewrite dict_set_keys. destruct (decide (k ∈ d.*1)); [done|].
  apply NoDup_app. split; [done|]. split; [|apply NoDup_singleton].
  intros x Hx ->%list_elem_of_singleton. done.
Qed.

Lemma dict_set_fresh {V} (d : list (pystr * V)) k v :
  k ∉ d.*1 → dict_set d k v = d ++ [(k, v)].
Proof.
  induction d as [|[k' v'] d IH]; simpl; [done|].
  intros Hk. rewrite decide_False by (intros ->; apply Hk; left).
  rewrite IH; [done|]. intros ?. apply Hk. by right.
Qed.

Lemma add_row_clean_elem inputs k v :
  (k, v) ∈ add_row_clean inputs ↔ ∃ t, v = VStr t ∧ (k, Some t) ∈ inputs.
Proof.
  unfold add_row_clean. rewrite list_elem_of_omap. split.
  - intros ([k' [t|]] & Hin & Ho); simpl in Ho; [|done].
    injection Ho as -> <-. eauto.
  - intros (t & -> & Hin). by exists (k, Some t).
Qed.

Lemma add_row_clean_NoDup inputs : NoDup inputs.*1 → NoDup (add_row_clean inputs).*1.
Proof.
  induction inputs as [|[k o] l IH]; [constructor|].
  rewrite fmap_cons. intros [Hk Hl]%NoDup_cons.
  destruct o as [t|];
    [change (add_row_clean ((k, Some t) :: l)) with ((k, VStr t) :: add_row_clean l)
    |change (add_row_clean ((k, None) :: l)) with (add_row_clean l); auto].
  rewrite fmap_cons. cbn [fst].
  apply NoDup_cons. split; [|auto].
  intros Hin. apply Hk. apply list_elem_of_fmap in Hin as ([k' v'] & Heq & Hin).
  simpl in Heq. subst k'. apply add_row_clean_elem in Hin as (t' & _ & Hin).
  apply list_elem_of_fmap. by exists (k, Some t').
Qed.

Section AddRow.
Context (typed : pystr → pystr).

Lemma add_row_fold_spec cols acc :
  (NoDup acc.*1 → NoDup (foldl (add_row_step typed) acc cols).*1)
  ∧ (∀ k o, (k, o) ∈ foldl (add_row_step typed) acc cols →
       (k, o) ∈ acc
       ∨ ∃ col, col ∈ cols ∧ is_auto_increment col = false ∧ k = col_name col
                ∧ o = if bool_decide (py_strip (typed_value typed col) = []) then None
                      else Some (typed_value typed col)).
Proof.
  revert acc. induction cols as [|col cols IH]; intros acc; simpl; [by auto|].
  destruct (IH (add_row_step typed acc col)) as [Hn Hx]. split.
  - intros Hacc. apply Hn. unfold add_row_step.
    destruct (is_auto_increment col); [done|]. by apply dict_set_NoDup.
  - intros k o Hin. destruct (Hx k o Hin) as [Hs|(c & Hc & Ha & -> & ->)].
    + unfold add_row_step in Hs. destruct (is_auto_increment col) eqn:Hauto; [by left|].
      apply dict_set_elem in Hs as [[= -> ->]|Hs]; [|by left].
      right. exists col. split; [left|done].
    + right. exists c. split; [by right|done].
Qed.

(** With distinct column names nothing is overwritten: the inputs are the
    entries of the columns that are not auto-increment, in column order. *)
Lemma add_row_fold_distinct cols acc :
  NoDup (acc.*1 ++ (col_name <$> cols)) →
  foldl (add_row_step typed) acc cols
  = acc ++ ((λ col, (col_name col,
                     if bool_decide (py_strip (typed_value typed col) = []) then None
                     else Some (typed_value typed col)))
            <$> filter (λ c, is_auto_increment c = false) cols).
Proof.
  revert acc. induction cols as [|col cols IH]; intros acc Hn; simpl.
  - by rewrite app_nil_r.
  - rewrite filter_cons. unfold add_row_step at 2.
    apply NoDup_app in Hn as (H1 & H2 & H3).
    rewrite fmap_cons in H2, H3. apply NoDup_cons in H3 as [H3 H4].
    destruct (is_auto_increment col) eqn:Hauto.
    + rewrite decide_False by done. apply IH.
      apply NoDup_app. split; [done|]. split; [|done].
      intros x Hx Hin. apply (H2 x Hx). by right.
    + rewrite decide_True by done. cbn zeta.
      rewrite dict_set_fresh by (intros Hin; apply (H2 _ Hin); left).
      rewrite IH.
      * by rewrite <- app_assoc.
      * rewrite fmap_app. simpl. rewrite <- app_assoc. simpl.
        apply NoDup_app. split; [done|]. split.
        -- intros x Hx Hin. by apply (H2 x Hx).
        -- by apply NoDup_cons.
Qed.

End AddRow.

Lemma add_row_clean_sound (typed : pystr → pystr) (cols_meta : list ColumnDescriptor) k v :
  (k, v) ∈ add_row_clean (add_row_inputs typed cols_meta) →
  ∃ col, col ∈ cols_meta ∧ col_name col = k ∧ is_auto_increment col = false
         ∧ v = VStr (typed_value typed col) ∧ py_strip (typed_value typed col) ≠ [].
Proof.
  intros Hin. apply add_row_clean_elem in Hin as (t & -> & Hin).
  destruct (add_row_fold_spec typed cols_meta []) as [_ Hx].
  destruct (Hx _ _ Hin) as [He|(col & Hc & Ha & -> & Hv)];
    [by apply not_elem_of_nil in He|].
  exists col. destruct (bool_decide (py_strip (typed_value typed col) = [])) eqn:E;
    [done|]. injection Hv as ->. apply bool_decide_eq_false in E. done.
Qed.

Lemma add_row_clean_blank (typed : pystr → pystr) (cols_meta : list ColumnDescriptor) :
  (∀ col, col ∈ cols_meta →
     is_auto_increment col = true ∨ py_strip (typed_value typed col) = []) →
  add_row_clean (add_row_inputs typed cols_meta) = [].
Proof.
  intros Hall. destruct (add_row_clean _) as [|[k v] rest] eqn:E; [done|].
  destruct (add_row_clean_sound typed cols_meta k v) as (col & Hc & _ & Ha & _ & Hs).
  { rewrite E. left. }
  destruct (Hall col Hc); congruence.
Qed.

(** The form sends only what was filled in: every column it sends is a
    column of the table that is not flagged auto_increment and whose
    input holds visible text, with the text as typed (not trimmed) as its
    value; no column is sent twice.  With distinct column names every
    such column is sent.  When nothing is filled in, the map is empty. *)
Theorem add_row_form_columns (typed : pystr → pystr) (cols_meta : list ColumnDescriptor) :
  let clean := add_row_clean (add_row_inputs typed cols_meta) in
  (∀ k v, (k, v) ∈ clean →
     ∃ col, col ∈ cols_meta ∧ col_name col = k ∧ is_auto_increment col = false
            ∧ v = VStr (typed_value typed col) ∧ py_strip (typed_value typed col) ≠ [])
  ∧ NoDup clean.*1
  ∧ (NoDup (col_name <$> cols_meta) →
     ∀ col, col ∈ cols_meta → is_auto_increment col = false →
            py_strip (typed_value typed col) ≠ [] →
            (col_name col, VStr (typed_value typed col)) ∈ clean)
  ∧ ((∀ col, col ∈ cols_meta →
        is_auto_increment col = true ∨ py_strip (typed_value typed col) = []) →
     clean = []).
Proof.
  intros clean. split; [apply add_row_clean_sound|]. split; [|split].
  - apply add_row_clean_NoDup, (add_row_fold_spec typed cols_meta []). constructor.
  - intros Hnd col Hc Ha Hs. apply add_row_clean_elem.
    exists (typed_value typed col). split; [done|].
    unfold add_row_inputs. rewrite (add_row_fold_distinct typed) by done. simpl.
    apply list_elem_of_fmap. exists col. split.
    + by rewrite bool_decide_eq_false_2.
    + by apply list_elem_of_filter.
  - apply add_row_clean_blank.
Qed.

Lemma insert_cols_elem k keys : str "`" ++ k ++ str "`" ∈ insert_cols keys ↔ k ∈ keys.
Proof.
  unfold insert_cols. rewrite list_elem_of_fmap. split; [|by eauto].
  intros (k' & Heq & Hin). apply app_inv_head, app_inv_tail in Heq. by subst.
Qed.

(** Submitting the form issues, on an accepted connection, the one
    statement [insert_row] builds from the filled-in columns, with their
    texts as parameters.  A column flagged auto_increment is not among
    the columns of the statement (its name being that of no other
    column), and a form with nothing filled in still issues INSERT INTO
    `table` () VALUES (); with no parameter. *)
Theorem add_row_submit_statement (eng : Engine) (database table : pystr)
    (typed : pystr → pystr) (cols_meta : list ColumnDescriptor) :
  connect eng (Some database) = Answer () →
  let clean := add_row_clean (add_row_inputs typed cols_meta) in
  executed (add_row_submit eng database table typed cols_meta).2
    = [(insert_sql table clean.*1, clean.*2)]
  ∧ (NoDup (col_name <$> cols_meta) →
     ∀ col, col ∈ cols_meta → is_auto_increment col = true →
            str "`" ++ col_name col ++ str "`" ∉ insert_cols clean.*1)
  ∧ ((∀ col, col ∈ cols_meta →
        is_auto_increment col = true ∨ py_strip (typed_value typed col) = []) →
     executed (add_row_submit eng database table typed cols_meta).2
     = [(str "INSERT INTO `" ++ table ++ str "` () VALUES ();", [])]).
Proof.
  intros Hc clean.
  assert (executed (add_row_submit eng database table typed cols_meta).2
          = [(insert_sql table clean.*1, clean.*2)]) as Hex.
  { unfold add_row_submit. fold clean. rewrite insert_row_connected by done.
    by destruct (execute eng _ _ _). }
  split; [done|]. split.
  - intros Hnd col Hin Hauto Hq. apply (proj1 (insert_cols_elem _ _)) in Hq.
    apply list_elem_of_fmap in Hq as ([k v] & Hk & Hkv). simpl in Hk. subst k.
    destruct (add_row_clean_sound _ _ _ _ Hkv) as (col' & Hin' & Hname & Hauto' & _).
    assert (col' = col) as ->; [|congruence].
    apply list_elem_of_lookup_1 in Hin as [i Hi]. apply list_elem_of_lookup_1 in Hin' as [j Hj].
    assert (i = j) as ->; [|congruence].
    eapply NoDup_lookup; [exact Hnd| |]; rewrite list_lookup_fmap.
    + by rewrite Hi.
    + rewrite Hj. simpl. by rewrite Hname.
  - intros Hall. rewrite Hex. unfold clean. by rewrite (add_row_clean_blank _ _ Hall).
Qed.

Lemma add_row_submit_statement_witness :
  executed (add_row_submit demo_engine (str "cricbuzz") (str "players") demo_typed
              (column_descriptor <$> players_columns)).2
  = [(str "INSERT INTO `players` (`name`) VALUES (%s);", [VStr (str " Test Player")])].
Proof.
  exact (proj1 (add_row_submit_statement demo_engine (str "cricbuzz") (str "players")
                  demo_typed (column_descriptor <$> players_columns) eq_refl)).
Defined.

(** ** The default choices of the page *)

Lemma py_index_elem l x :
  x ∈ l → ∃ i, py_index l x = Some i ∧ l !! i = Some x
               ∧ ∀ j, j < i → l !! j ≠ Some x.
Proof.
  induction l as [|y l IH]; [by intros ?%not_elem_of_nil|].
  intros Hin. simpl. destruct (decide (y = x)) as [->|Hne].
  - exists 0. repeat split; [done..|]. intros j Hj. lia.
  - apply elem_of_cons in Hin as [->|Hin]; [done|].
    destruct (IH Hin) as (i & -> & Hi & Hfirst). exists (S i).
    repeat split; [done..|]. intros [|j] Hj; simpl; [congruence|].
    apply Hfirst. lia.
Qed.

Lemma default_table_elem tbls : tbls ≠ [] → default_table tbls ∈ tbls.
Proof.
  intros Hne. unfold default_table.
  destruct (bool_decide (str "trending_players" ∈ tbls)) eqn:E1.
  { by apply bool_decide_eq_true in E1. }
  destruct (bool_decide (str "player_squad" ∈ tbls)) eqn:E2.
  { by apply bool_decide_eq_true in E2. }
  destruct tbls; [done|left].
Qed.

(** The index the page hands to its two select boxes is always defined
    (the lookup behind it never raises ValueError) and in range: for a
    non-empty table list it is the first position of the default table,
    which is trending_players when listed, else player_squad when listed,
    else the first table; for the databases it is the first position of
    cricbuzz when listed, else 0. *)
Theorem default_index_in_range (dbs tbls : list pystr) :
  (∃ i, default_table_index tbls = Some i
        ∧ (tbls = [] → i = 0)
        ∧ (tbls ≠ [] → tbls !! i = Some (default_table tbls)
                       ∧ ∀ j, j < i → tbls !! j ≠ Some (default_table tbls)))
  ∧ (str "trending_players" ∈ tbls → default_table tbls = str "trending_players")
  ∧ (str "trending_players" ∉ tbls → str "player_squad" ∈ tbls →
     default_table tbls = str "player_squad")
  ∧ (str "trending_players" ∉ tbls → str "player_squad" ∉ tbls →
     head tbls = Some (default_table tbls) ∨ tbls = [])
  ∧ (∃ i, default_database_index dbs = Some i
          ∧ (str "cricbuzz" ∈ dbs → dbs !! i = Some (str "cricbuzz"))
          ∧ (str "cricbuzz" ∉ dbs → i = 0)).
Proof.
  split; [|split; [|split; [|split]]].
  - destruct (decide (tbls = [])) as [->|Hne]; [by exists 0|].
    destruct (py_index_elem tbls _ (default_table_elem tbls Hne)) as (i & Hi & Hl & Hf).
    exists i. split; [|split; [done|by split]].
    unfold default_table_index. rewrite Hi. by destruct tbls.
  - intros H. unfold default_table. by rewrite bool_decide_eq_true_2.
  - intros H1 H2. unfold default_table.
    by rewrite bool_decide_eq_false_2, bool_decide_eq_true_2.
  - intros H1 H2. unfold default_table.
    rewrite !bool_decide_eq_false_2 by done. destruct tbls; [by right|by left].
  - unfold default_database_index.
    destruct (bool_decide (str "cricbuzz" ∈ dbs)) eqn:E.
    + apply bool_decide_eq_true in E.
      destruct (py_index_elem dbs _ E) as (i & -> & Hl & _). exists i.
      split; [done|]. split; [done|]. by intros [].
    + apply bool_decide_eq_false in E. exists 0.
      split; [done|]. split; [|done]. by intros ?.
Qed.

Example default_index_demo :
  default_table_index [str "matches"; str "player_squad"; str "trending_players"] = Some 2
  ∧ default_table_index [str "matches"; str "player_squad"] = Some 1
  ∧ default_table_index [str "matches"; str "venues"] = Some 0
  ∧ default_database_index [str "blog"; str "cricbuzz"] = Some 1.
Proof. repeat split; vm_compute; reflexivity. Qed.

(** ** The markers of the INSERT statement *)

Lemma count_markers_app a b :
  (∀ c, last a = Some c → marker_char c = false) →
  count_markers (a ++ b) = count_markers a + count_markers b.
Proof.
  induction a as [|c a IH]; intros Hlast; [done|].
  destruct a as [|c' a].
  - specialize (Hlast c eq_refl). unfold marker_char in Hlast.
    repeat (apply orb_false_iff in Hlast as [Hlast ?]).
    simpl. rewrite Hlast. destruct b as [|d b]; simpl; [lia|].
    replace ((c =? 58) || (c =? 64) || (c =? 36))%N with false
      by (symmetry; repeat (apply orb_false_iff; split); done).
    replace (c =? 37)%N with false by done. simpl. lia.
  - change (count_markers ((c :: c' :: a) ++ b))
      with ((if (c =? 63)%N then 1
             else if ((c =? 58) || (c =? 64) || (c =? 36))%N && is_word_char c' then 1
                  else if ((c =? 37) && (c' =? 115))%N then 1 else 0)
            + count_markers ((c' :: a) ++ b)).
    rewrite IH by (intros x Hx; by apply Hlast).
    change (count_markers (c :: c' :: a))
      with ((if (c =? 63)%N then 1
             else if ((c =? 58) || (c =? 64) || (c =? 36))%N && is_word_char c' then 1
                  else if ((c =? 37) && (c' =? 115))%N then 1 else 0)
            + count_markers (c' :: a)).
    lia.
Qed.

Lemma plain_text_last s c : plain_text s = true → last s = Some c → marker_char c = false.
Proof.
  unfold plain_text. rewrite forallb_forall. intros H Hl.
  apply negb_true_iff, H, list_elem_of_In. by apply last_Some_elem_of.
Qed.

Lemma plain_text_count s : plain_text s = true → count_markers s = 0.
Proof.
  induction s as [|c s IH]; [done|].
  intros H. pose proof H as H'. apply andb_true_iff in H' as [Hc Hs].
  change (c :: s) with ([c] ++ s). rewrite count_markers_app.
  - rewrite (IH Hs). apply negb_true_iff in Hc. unfold marker_char in Hc.
    repeat (apply orb_false_iff in Hc as [Hc ?]). simpl. by rewrite Hc.
  - intros x [= <-]. by apply negb_true_iff.
Qed.

Lemma plain_text_app a b : plain_text (a ++ b) = plain_text a && plain_text b.
Proof. apply forallb_app. Qed.

Lemma plain_join cols :
  Forall (λ k, plain_text k = true) cols → plain_text (py_join (str ", ") cols) = true.
Proof.
  induction 1 as [|k cols Hk Hc IH]; [done|].
  destruct cols as [|k' cols]; [done|].
  change (py_join (str ", ") (k :: k' :: cols))
    with (k ++ str ", " ++ py_join (str ", ") (k' :: cols)).
  by rewrite !plain_text_app, Hk, IH.
Qed.

Lemma placeholders_count n :
  count_markers (py_join (str ", ") (replicate n (str "%s"))) = n
  ∧ ∀ c, last (py_join (str ", ") (replicate n (str "%s"))) = Some c → marker_char c = false.
Proof.
  induction n as [|n [IH1 IH2]]; [done|].
  destruct n as [|n].
  - split; [done|]. intros c [= <-]. done.
  - change (py_join (str ", ") (replicate (S (S n)) (str "%s")))
      with (str "%s" ++ str ", " ++ py_join (str ", ") (replicate (S n) (str "%s"))).
    split.
    + rewrite count_markers_app by (intros c [= <-]; done).
      rewrite count_markers_app by (intros c [= <-]; done).
      rewrite IH1. done.
    + intros c. rewrite !last_app.
      destruct (last (py_join (str ", ") (replicate (S n) (str "%s")))) as [c'|] eqn:E.
      * intros [= <-]. by apply IH2.
      * intros [= <-]. done.
Qed.

(** The INSERT statement carries exactly one marker per value: for a
    table name and column names without marker characters ([?], [:],
    [@], [$], [%]) the number of parameter markers in the text is the
    number of parameters handed to [execute], whatever the values are. *)
Theorem insert_markers_match_values (table : pystr) (data : list (pystr * PyVal)) :
  plain_text table = true →
  Forall (λ k, plain_text k = true) data.*1 →
  count_markers (insert_sql table data.*1) = length data.*2.
Proof.
  intros Ht Hk. unfold insert_sql.
  assert (plain_text (py_join (str ", ") (insert_cols data.*1)) = true) as Hj.
  { apply plain_join. unfold insert_cols. apply Forall_fmap.
    eapply Forall_impl; [exact Hk|]. intros k Hp. simpl.
    by rewrite !plain_text_app, Hp. }
  destruct (placeholders_count (length (insert_cols data.*1))) as [Hp1 Hp2].
  rewrite count_markers_app by (intros c [= <-]; done).
  rewrite count_markers_app by (intros c; by apply plain_text_last).
  rewrite count_markers_app by (intros c [= <-]; done).
  rewrite count_markers_app by (intros c; by apply plain_text_last).
  rewrite count_markers_app by (intros c [= <-]; done).
  rewrite count_markers_app by done.
  rewrite Hp1, (plain_text_count _ Ht), (plain_text_count _ Hj).
  unfold insert_cols. rewrite !length_fmap. done.
Qed.

Lemma insert_markers_match_values_witness :
  count_markers (insert_sql (str "players") [str "name"; str "team"]) = 2.
Proof.
  apply (insert_markers_match_values (str "players")
           [(str "name", VStr (str "Test Player")); (str "team", VStr (str "India"))]).
  - reflexivity.
  - repeat constructor.
Defined.

(** A column name that holds a marker breaks the match: two markers for
    one value. *)
Example insert_markers_mismatch :
  count_markers (insert_sql (str "players") [str "a%sb"]) = 2.
Proof. vm_compute. reflexivity. Qed.
